(** * Race telemetry backend: leaderboard, debounced broadcast, intent
      inference, replay ledger.

    A shallow embedding of the Python sources

      - [intent_predictor.py]  (rule based intent classifier),
      - [feature_extractor.py] (rolling per-driver window),
      - [main.py]              (driver state store, ranking, debounced emit),
      - [sim_config_api.py]    (run life cycle),
      - [intent_service.py]    (subscriber registry, replay appends),

    and the properties the design document states about them.

    Conventions.  Python floats that are only compared with constants and
    added, divided and compared among themselves (the classifier) are IEEE
    binary64 values, embedded as Rocq's primitive floats; a Python [dict]
    whose iteration order is observable is an association list in insertion
    order, any other [dict] is a [gmap]; an exception is a [None] / [Err]
    result together with the state reached when it was raised. *)

From Stdlib Require Import ZArith QArith Qround Lqa Ascii String List Permutation Sorted Lia PrimFloat.
From Stdlib Require Uint63.
From stdpp Require Import gmap strings list fin_maps sorting.
Import ListNotations.

Set Warnings "-inexact-float".

Local Open Scope string_scope.
Local Open Scope list_scope.

(** ** Insertion-ordered dictionaries

    [dict_get], [dict_set] follow Python's [dict]: assigning to a key that is
    present keeps its place, a new key goes last. *)
Module PyDict.

Fixpoint dict_get {K V} `{EqDecision K} (k : K) (d : list (K * V)) : option V :=
  match d with
  | [] => None
  | (k', v) :: d' => if decide (k = k') then Some v else dict_get k d'
  end.

Fixpoint dict_set {K V} `{EqDecision K} (k : K) (v : V) (d : list (K * V)) : list (K * V) :=
  match d with
  | [] => [(k, v)]
  | (k', v') :: d' =>
      if decide (k = k') then (k, v) :: d' else (k', v') :: dict_set k v d'
  end.

Definition dict_keys {K V} (d : list (K * V)) : list K := map fst d.
Definition dict_values {K V} (d : list (K * V)) : list V := map snd d.

Lemma dict_get_set_eq {K V} `{EqDecision K} (k : K) (v : V) d :
  dict_get k (dict_set k v d) = Some v.
Proof.
  induction d as [|[k' v'] d IH]; simpl.
  - by rewrite decide_True.
  - destruct (decide (k = k')) as [->|Hne]; simpl.
    + by rewrite decide_True.
    + by rewrite decide_False.
Qed.


End PyDict.

(** ** intent_predictor.py *)
Module Intent.
Import PyDict.

Notation "x <? y" := (PrimFloat.ltb x y) : float_scope.
Notation "x <=? y" := (PrimFloat.leb x y) : float_scope.
Notation "x =? y" := (PrimFloat.eqb x y) : float_scope.

Local Open Scope float_scope.

(** [INTENTS = ["push", "conserve", "prepare_pit", "bluff"]] *)
Definition INTENTS : list string := ["push"; "conserve"; "prepare_pit"; "bluff"]%string.

(** A feature mapping: names to floats.  ([to_features] also stores the
    integer sample count under ["samples"]; [predict] never reads it.) *)
Abbreviation features := (gmap string float).

(** [features.get(name, 0.0)] *)
Definition feat (f : features) (name : string) : float := default 0 (f !! name).

(** Python's true division on floats: [ZeroDivisionError] on a zero divisor. *)
Definition py_div (a b : float) : option float :=
  if b =? 0 then None else Some (a / b).

(** [scores[k] += w] on the insertion-ordered [scores] dict. *)
Definition bump (k : string) (w : float) (scores : list (string * float)) : list (string * float) :=
  match dict_get k scores with
  | Some v => dict_set k (v + w) scores
  | None => scores
  end.

(** [sum(d.values())]: a left fold starting from the integer 0. *)
Definition py_sum (vs : list float) : float := fold_left PrimFloat.add vs 0.

(** [max(probs, key=probs.get)]: the first key whose value no later key
    exceeds strictly (each candidate replaces the running best only when it
    is strictly greater). *)
Fixpoint argmax_from (best : string * float) (rest : list (string * float)) : string * float :=
  match rest with
  | [] => best
  | kv :: rest' => argmax_from (if snd best <? snd kv then kv else best) rest'
  end.

Definition py_max_key (d : list (string * float)) : option (string * float) :=
  match d with
  | [] => None
  | kv :: rest => Some (argmax_from kv rest)
  end.

(** The seven threshold rules, in source order. *)
Definition rule_push_fast (f : features) : bool :=
  (35 <? feat f "speed_mean") && (0.5 <? feat f "delta_speed") && (40 <? feat f "throttle_mean").
Definition rule_push_var (f : features) : bool :=
  3.0 <? feat f "speed_std".
Definition rule_pit_hot (f : features) : bool :=
  (80 <? feat f "tyre_temp_mean") && (10 <? feat f "brake_mean").
Definition rule_pit_brake (f : features) : bool :=
  (20 <? feat f "brake_mean") && (feat f "lapprog_slope" <? 0).
Definition rule_conserve_slow (f : features) : bool :=
  (feat f "speed_mean" <? 25) && (feat f "throttle_mean" <? 30) && (feat f "speed_std" <? 2.0).
Definition rule_conserve_flat (f : features) : bool :=
  PrimFloat.abs (feat f "lapprog_slope") <? 0.001.
Definition rule_bluff (f : features) : bool :=
  (6.0 <? feat f "speed_std") && (3.0 <? PrimFloat.abs (feat f "delta_speed")) && (feat f "brake_mean" <? 5).

Definition when (b : bool) (k : string) (w : float) (scores : list (string * float)) :=
  if b then bump k w scores else scores.

(** The conditional bumps of [predict] in source order, each guarded by the
    outcome of its rule's test, followed by the smoothing loop
    [for k in scores: scores[k] += 0.01]. *)
Definition score_rules (push_fast push_var pit_hot pit_brake conserve_slow conserve_flat bluff : bool)
  : list (string * float) :=
  let scores := map (fun i => (i, 0)) INTENTS in
  let scores := when push_fast "push" 2.0 scores in
  let scores := when push_var "push" 0.5 scores in
  let scores := when pit_hot "prepare_pit" 2.0 scores in
  let scores := when pit_brake "prepare_pit" 1.0 scores in
  let scores := when conserve_slow "conserve" 2.0 scores in
  let scores := when conserve_flat "conserve" 0.5 scores in
  let scores := when bluff "bluff" 1.5 scores in
  map (fun kv => (fst kv, snd kv + 0.01)) scores.

Definition score (f : features) : list (string * float) :=
  score_rules (rule_push_fast f) (rule_push_var f) (rule_pit_hot f) (rule_pit_brake f)
              (rule_conserve_slow f) (rule_conserve_flat f) (rule_bluff f).

(** [{k: float(v/total) for k, v in scores.items()}] *)
Fixpoint normalise (total : float) (scores : list (string * float)) : option (list (string * float)) :=
  match scores with
  | [] => Some []
  | (k, v) :: rest =>
      match py_div v total, normalise total rest with
      | Some p, Some ps => Some ((k, p) :: ps)
      | _, _ => None
      end
  end.

(** The tail of [predict]: total, probabilities, arg-max, confidence. *)
Definition classify (scores : list (string * float)) : option (string * list (string * float) * float) :=
  let total := py_sum (dict_values scores) in
  match normalise total scores with
  | Some probs =>
      match py_max_key probs with
      | Some (intent, _) =>
          match dict_get intent probs with
          | Some confidence => Some (intent, probs, confidence)
          | None => None
          end
      | None => None
      end
  | None => None
  end.

(** [IntentPredictor.predict]; [None] stands for a raised exception.
    [not features] holds exactly for the empty mapping. *)
Definition predict (f : features) : option (string * list (string * float) * float) :=
  if decide (size f = 0%nat) then
    match py_div 1.0 4 with
    | Some u => Some ("conserve"%string, map (fun i => (i, u)) INTENTS, u)
    | None => None
    end
  else classify (score f).

(** The tolerance within which the probabilities add up to one: four units
    in the last place of 1.0. *)
Definition prob_tolerance : float := 0x1p-50.

(** [intent] is the earliest key of [probs] that holds the largest value:
    every earlier value is strictly smaller, no later value is larger. *)
Definition earliest_max (probs : list (string * float)) (intent : string) (conf : float) : Prop :=
  exists before after,
    probs = before ++ (intent, conf) :: after /\
    Forall (fun kv => (snd kv <? conf) = true) before /\
    Forall (fun kv => (snd kv <=? conf) = true) after.

(** What the design asks of a prediction: the four labels as keys, positive
    probabilities adding up to one, the confidence the largest of them. *)
Definition distribution (r : string * list (string * float) * float) : Prop :=
  let '(intent, probs, conf) := r in
  dict_keys probs = INTENTS /\
  Forall (fun p => (0 <? p) = true) (dict_values probs) /\
  (PrimFloat.abs (py_sum (dict_values probs) - 1) <=? prob_tolerance) = true /\
  dict_get intent probs = Some conf /\
  Forall (fun p => (p <=? conf) = true) (dict_values probs).

Definition uniform : list (string * float) :=
  [("push", 0.25); ("conserve", 0.25); ("prepare_pit", 0.25); ("bluff", 0.25)]%string.

(** No rule of the table fires on [f]. *)
Definition no_rule (f : features) : Prop :=
  rule_push_fast f = false /\ rule_push_var f = false /\ rule_pit_hot f = false /\
  rule_pit_brake f = false /\ rule_conserve_slow f = false /\
  rule_conserve_flat f = false /\ rule_bluff f = false.

Ltac split_at_max :=
  first
    [ solve [exists []; eexists; split; [reflexivity|]; split; repeat constructor]
    | solve [eexists [_]; eexists; split; [reflexivity|]; split; repeat constructor]
    | solve [eexists [_; _]; eexists; split; [reflexivity|]; split; repeat constructor]
    | solve [eexists [_; _; _]; eexists; split; [reflexivity|]; split; repeat constructor] ].

Ltac each_rule_outcome :=
  unfold score;
  generalize (rule_bluff _), (rule_conserve_flat _), (rule_conserve_slow _),
             (rule_pit_brake _), (rule_pit_hot _), (rule_push_var _), (rule_push_fast _);
  intros [] [] [] [] [] [] [].

(** Whatever the rules decide, the tail of [predict] returns a distribution
    whose label is the earliest arg-max: one case per outcome of the seven
    tests, each settled by evaluating the float arithmetic. *)
Lemma classify_score_rules (b1 b2 b3 b4 b5 b6 b7 : bool) :
  exists r, classify (score_rules b1 b2 b3 b4 b5 b6 b7) = Some r /\
            distribution r /\ earliest_max (snd (fst r)) (fst (fst r)) (snd r).
Proof.
  destruct b1, b2, b3, b4, b5, b6, b7;
    (eexists; split; [vm_compute; reflexivity|]; split;
     [ unfold distribution; repeat split; repeat constructor
     | cbn [fst snd]; split_at_max ]).
Qed.

Lemma size_zero_empty (f : features) : size f = 0%nat -> f = ∅.
Proof. apply map_size_empty_inv. Qed.

(** C6. With no features yet, [predict] answers the uniform distribution over
    exactly the four labels push, conserve, prepare_pit, bluff, each with
    probability 1/4, and confidence 1/4. *)
Theorem predict_empty_uniform :
  predict ∅ = Some ("conserve"%string, uniform, 0.25) /\
  dict_keys uniform = INTENTS /\
  Forall (fun p => p = 0.25) (dict_values uniform).
Proof.
  split; [vm_compute; reflexivity|]. split; [reflexivity|]. repeat constructor.
Qed.

(** C5. [predict] is a total function of the feature mapping: on every
    mapping (non-negative values or not) it returns, never raising, a
    probability mapping over exactly the four labels, each probability
    strictly positive, their sum within [prob_tolerance] of 1.0, and the
    confidence equal to the largest probability, which is the predicted
    label's. *)
Theorem predict_total_distribution (f : features) :
  exists r, predict f = Some r /\ distribution r.
Proof.
  unfold predict. destruct (decide (size f = 0%nat)) as [_|_].
  - eexists. split; [vm_compute; reflexivity|].
    unfold distribution. repeat split; repeat constructor.
  - destruct (classify_score_rules (rule_push_fast f) (rule_push_var f) (rule_pit_hot f)
                (rule_pit_brake f) (rule_conserve_slow f) (rule_conserve_flat f) (rule_bluff f))
      as (r & Hr & Hd & _).
    exists r. split; [exact Hr | exact Hd].
Qed.

(** C10. On a non-empty mapping on which no rule fires every score is the
    smoothing constant, so [predict] returns the uniform distribution and the
    label push; on the empty mapping the label is conserve; and on every
    non-empty mapping the label is the earliest arg-max in the order push,
    conserve, prepare_pit, bluff. *)
Theorem predict_no_rule_push (f : features) :
  f <> ∅ ->
  (no_rule f -> predict f = Some ("push"%string, uniform, 0.25)) /\
  (exists r, predict f = Some r /\ earliest_max (snd (fst r)) (fst (fst r)) (snd r)) /\
  (fun r => fst (fst r)) <$> predict ∅ = Some "conserve"%string /\
  dict_keys uniform = INTENTS.
Proof.
  intros Hne. unfold predict.
  destruct (decide (size f = 0%nat)) as [H0|_];
    [exfalso; apply Hne, size_zero_empty, H0|].
  split; [|split; [|split; reflexivity]].
  - intros (H1 & H2 & H3 & H4 & H5 & H6 & H7). unfold score.
    rewrite H1, H2, H3, H4, H5, H6, H7. vm_compute. reflexivity.
  - destruct (classify_score_rules (rule_push_fast f) (rule_push_var f) (rule_pit_hot f)
                (rule_pit_brake f) (rule_conserve_slow f) (rule_conserve_flat f) (rule_bluff f))
      as (r & Hr & _ & Hm).
    exists r. split; [exact Hr | exact Hm].
Qed.

(** A mapping on which no rule fires: the car is neither slow nor fast and
    its lap progress is not flat. *)
Lemma predict_no_rule_push_witness :
  predict {[ "speed_mean"%string := 30; "lapprog_slope"%string := 0.5 ]}
  = Some ("push"%string, uniform, 0.25).
Proof.
  refine (proj1 (predict_no_rule_push {[ "speed_mean"%string := 30; "lapprog_slope"%string := 0.5 ]} _) _).
  - intros H. apply (f_equal (fun m : features => m !! "speed_mean"%string)) in H.
    vm_compute in H. discriminate H.
  - repeat split; vm_compute; reflexivity.
Defined.

End Intent.

(** ** feature_extractor.py: the rolling window *)
Module Window.

(** [collections.deque(maxlen=n)]: [append] adds on the right and, when the
    length then exceeds [maxlen], drops one element on the left. *)
Record deque (A : Type) := Deque { items : list A; maxlen : option nat }.
Arguments Deque {A} _ _.
Arguments items {A} _.
Arguments maxlen {A} _.

Definition deque_append {A} (x : A) (d : deque A) : deque A :=
  let grown := items d ++ [x] in
  match maxlen d with
  | Some n => Deque (if decide (n < length grown) then tail grown else grown) (Some n)
  | None => Deque grown None
  end.

Section DriverWindow.
Context {pkt : Type}.

(** [class DriverWindow]: [self.buf = deque(maxlen=maxlen)], default 40. *)
Record DriverWindow := { buf : deque pkt }.

Definition new_window (maxlen : nat) : DriverWindow := {| buf := Deque [] (Some maxlen) |}.
Definition default_window : DriverWindow := new_window 40.

Definition push (p : pkt) (w : DriverWindow) : DriverWindow :=
  {| buf := deque_append p (buf w) |}.

(** [len(self.buf) >= min_samples], default 5 *)
Definition is_ready (min_samples : nat) (w : DriverWindow) : bool :=
  bool_decide (min_samples <= length (items (buf w))).

(** The packets pushed one after the other, the head of the list first. *)
Definition push_all (ps : list pkt) (w : DriverWindow) : DriverWindow :=
  fold_left (fun w p => push p w) ps w.

Definition samples (w : DriverWindow) : list pkt := items (buf w).

Lemma maxlen_push p w : maxlen (buf (push p w)) = maxlen (buf w).
Proof. unfold push, deque_append. simpl. by destruct (maxlen (buf w)). Qed.

Lemma maxlen_push_all ps w : maxlen (buf (push_all ps w)) = maxlen (buf w).
Proof.
  revert w. induction ps as [|p ps IH]; intros w; simpl; [done|].
  by rewrite IH, maxlen_push.
Qed.

(** One push below capacity only appends; one push at capacity drops exactly
    the oldest sample. *)
Lemma push_samples n p w :
  maxlen (buf w) = Some n -> length (samples w) <= n ->
  samples (push p w) =
    if decide (length (samples w) < n) then samples w ++ [p]
    else tail (samples w ++ [p]).
Proof.
  unfold samples, push, deque_append. simpl. intros -> Hle.
  simpl. rewrite length_app. simpl.
  destruct (decide (length (items (buf w)) < n)).
  - rewrite decide_False by lia. done.
  - rewrite decide_True by lia. done.
Qed.

Lemma push_samples_drop n p w :
  maxlen (buf w) = Some n -> length (samples w) <= n ->
  samples (push p w) = drop (length (samples w ++ [p]) - n) (samples w ++ [p]) /\
  length (samples (push p w)) <= n.
Proof.
  intros Hm Hle. rewrite (push_samples n) by done.
  rewrite length_app. simpl.
  destruct (decide (length (samples w) < n)).
  - replace (length (samples w) + 1 - n) with 0 by lia.
    rewrite length_app. simpl. split; [done | lia].
  - replace (length (samples w) + 1 - n) with 1 by lia.
    split; [by destruct (samples w ++ [p])|].
    destruct (samples w) as [|q l] eqn:E; simpl in *; [lia|].
    rewrite length_app. simpl. lia.
Qed.

(** After any run of pushes into a window within its capacity, the window
    holds the last [n] of everything it has seen, oldest first. *)
Lemma push_all_samples n ps w :
  maxlen (buf w) = Some n -> length (samples w) <= n ->
  samples (push_all ps w) = drop (length (samples w ++ ps) - n) (samples w ++ ps).
Proof.
  revert w. induction ps as [|p ps IH]; intros w Hm Hle; simpl.
  - rewrite app_nil_r. replace (length (samples w) - n) with 0 by lia. done.
  - destruct (push_samples_drop n p w Hm Hle) as [Hs Hl].
    rewrite IH; [|by rewrite maxlen_push|done].
    rewrite Hs. rewrite !length_app, length_drop, !length_app. simpl.
    set (k := length (samples w) + 1 - n).
    assert (Hk : k <= length (samples w ++ [p])) by (rewrite length_app; simpl; lia).
    rewrite <- (drop_app_le (samples w ++ [p]) ps k) by exact Hk.
    rewrite drop_drop, <- app_assoc. simpl. f_equal. lia.
Qed.

(** C7. A window of capacity 40 that receives 45 pushes stores exactly 40
    samples: the 40 pushed last, in push order (the first five are gone).
    Each push into a full window drops exactly the oldest sample and each
    push into a window that is not full drops nothing. *)
Theorem window_keeps_most_recent (ps : list pkt) :
  length ps = 45 ->
  length (samples (push_all ps default_window)) = 40 /\
  samples (push_all ps default_window) = drop 5 ps /\
  forall (qs : list pkt) (p : pkt),
    samples (push p (push_all qs default_window)) =
      if decide (length (samples (push_all qs default_window)) < 40)
      then samples (push_all qs default_window) ++ [p]
      else tail (samples (push_all qs default_window)) ++ [p].
Proof.
  intros Hlen.
  assert (Hall : forall qs, samples (push_all qs default_window) = drop (length qs - 40) qs).
  { intros qs. rewrite (push_all_samples 40); simpl; [done|done|lia]. }
  split; [|split].
  - rewrite Hall, length_drop. lia.
  - rewrite Hall, Hlen. done.
  - intros qs p.
    assert (Hm : maxlen (buf (push_all qs default_window)) = Some 40).
    { by rewrite maxlen_push_all. }
    assert (Hle : length (samples (push_all qs default_window)) <= 40).
    { rewrite Hall, length_drop. lia. }
    rewrite (push_samples 40) by done.
    destruct (decide _) as [|Hfull]; [reflexivity|].
    destruct (samples (push_all qs default_window)) eqn:E; [simpl in *; lia | reflexivity].
Qed.

End DriverWindow.

(** Forty-five numbered packets: the window ends with packets 5 to 44. *)
Lemma window_keeps_most_recent_witness :
  length (samples (push_all (seq 0 45) default_window)) = 40 /\
  samples (push_all (seq 0 45) default_window) = seq 5 40.
Proof.
  destruct (window_keeps_most_recent (seq 0 45) eq_refl) as (H1 & H2 & _).
  split; [exact H1 | exact H2].
Defined.

End Window.

(** ** intent_service.py: the subscriber registry *)
Module Registry.

(** A viewer websocket, identified by its object identity. *)
Definition handle := nat.

Section Broadcast.
Context {msg : Type}.

(** The connections as the service sees them: the ones whose next
    [send_json] raises, what each accepted so far (oldest first), and every
    delivery attempted so far. *)
Record net := Net {
  broken : gset handle;
  inbox : list (handle * msg);
  attempts : list handle;
}.

Inductive outcome := Sent | Raised.

(** [await ws.send_json(message)] *)
Definition send_json (ws : handle) (m : msg) (n : net) : outcome * net :=
  if decide (ws ∈ broken n)
  then (Raised, Net (broken n) (inbox n) (attempts n ++ [ws]))
  else (Sent, Net (broken n) (inbox n ++ [(ws, m)]) (attempts n ++ [ws])).

(** [clients.add(ws)], and the guarded [clients.remove(ws)] of [ws_endpoint] *)
Definition add (ws : handle) (clients : gset handle) : gset handle := clients ∪ {[ws]}.
Definition discard (ws : handle) (clients : gset handle) : gset handle :=
  if decide (ws ∈ clients) then clients ∖ {[ws]} else clients.

(** [set.remove]: [KeyError] on an absent element. *)
Definition set_remove (ws : handle) (clients : gset handle) : option (gset handle) :=
  if decide (ws ∈ clients) then Some (clients ∖ {[ws]}) else None.

(** The first loop of [broadcast_json]: try every handle of the snapshot,
    remember the ones that raised. *)
Fixpoint deliver (snapshot : list handle) (m : msg) (to_remove : list handle) (n : net)
  : list handle * net :=
  match snapshot with
  | [] => (to_remove, n)
  | ws :: rest =>
      match send_json ws m n with
      | (Sent, n') => deliver rest m to_remove n'
      | (Raised, n') => deliver rest m (to_remove ++ [ws]) n'
      end
  end.

(** The second loop: [for r in to_remove: clients.remove(r)]. *)
Fixpoint remove_all (to_remove : list handle) (clients : gset handle) : option (gset handle) :=
  match to_remove with
  | [] => Some clients
  | r :: rest =>
      match set_remove r clients with
      | Some clients' => remove_all rest clients'
      | None => None
      end
  end.

(** [broadcast_json(message)], run under [clients_lock]; [list(clients)] is
    [elements clients].  [None] would be an escaping [KeyError]. *)
Definition broadcast_json (m : msg) (clients : gset handle) (n : net)
  : option (gset handle * net) :=
  let '(to_remove, n') := deliver (elements clients) m [] n in
  match remove_all to_remove clients with
  | Some clients' => Some (clients', n')
  | None => None
  end.

Lemma deliver_spec snapshot m acc n :
  let '(to_remove, n') := deliver snapshot m acc n in
  to_remove = acc ++ filter (fun ws => ws ∈ broken n) snapshot /\
  broken n' = broken n /\
  attempts n' = attempts n ++ snapshot /\
  inbox n' = inbox n ++ map (fun ws => (ws, m)) (filter (fun ws => ws ∉ broken n) snapshot).
Proof.
  revert acc n. induction snapshot as [|ws rest IH]; intros acc n; simpl.
  - by rewrite !app_nil_r.
  - unfold send_json. destruct (decide (ws ∈ broken n)) as [Hin|Hout].
    + specialize (IH (acc ++ [ws]) (Net (broken n) (inbox n) (attempts n ++ [ws]))).
      destruct (deliver rest m _ _) as [tr n']. simpl in IH.
      destruct IH as (-> & Hb & Ha & Hi).
      rewrite filter_cons_True by done. rewrite filter_cons_False by (intros ?; done).
      rewrite <- !app_assoc in *. done.
    + specialize (IH acc (Net (broken n) (inbox n ++ [(ws, m)]) (attempts n ++ [ws]))).
      destruct (deliver rest m _ _) as [tr n']. simpl in IH.
      destruct IH as (-> & Hb & Ha & Hi).
      rewrite filter_cons_False by done. rewrite filter_cons_True by done.
      simpl. rewrite <- !app_assoc in *. done.
Qed.

Lemma remove_all_spec to_remove clients :
  NoDup to_remove -> (forall r, r ∈ to_remove -> r ∈ clients) ->
  remove_all to_remove clients = Some (clients ∖ list_to_set to_remove).
Proof.
  revert clients. induction to_remove as [|r rest IH]; intros clients Hnd Hin; simpl.
  - f_equal. set_solver.
  - apply NoDup_cons in Hnd as [Hr Hnd].
    unfold set_remove. rewrite decide_True by (apply Hin; set_solver).
    rewrite IH; [f_equal; set_solver|done|].
    intros r' Hr'. apply elem_of_difference. split; [apply Hin; set_solver|].
    set_solver.
Qed.

(** C9. [broadcast_json] returns normally; it attempts delivery to every
    handle registered when it starts, once each; afterwards the registry is
    the initial one without the handles whose delivery raised; and every
    registered handle whose own delivery does not raise receives the
    message, whatever happened to the others. *)
Theorem broadcast_json_prunes_failures (m : msg) (clients : gset handle) (n : net) :
  exists clients' n',
    broadcast_json m clients n = Some (clients', n') /\
    attempts n' = attempts n ++ elements clients /\
    (forall ws, ws ∈ clients -> ws ∈ attempts n') /\
    clients' = clients ∖ broken n /\
    (forall ws, ws ∈ clients' <-> ws ∈ clients /\ ws ∉ broken n) /\
    inbox n' = inbox n ++ map (fun ws => (ws, m)) (filter (fun ws => ws ∉ broken n) (elements clients)) /\
    (forall ws, ws ∈ clients -> ws ∉ broken n -> (ws, m) ∈ inbox n').
Proof.
  unfold broadcast_json.
  pose proof (deliver_spec (elements clients) m [] n) as H.
  destruct (deliver (elements clients) m [] n) as [to_remove n'].
  destruct H as (Htr & Hb & Ha & Hi). simpl in Htr. subst to_remove.
  rewrite remove_all_spec.
  - do 2 eexists. split; [reflexivity|].
    assert (Hset : clients ∖ list_to_set (filter (fun ws => ws ∈ broken n) (elements clients))
                   = clients ∖ broken n).
    { apply set_eq. intros ws. rewrite !elem_of_difference, elem_of_list_to_set.
      rewrite list_elem_of_filter, elem_of_elements. tauto. }
    split; [exact Ha|]. split.
    { intros ws Hws. rewrite Ha. apply elem_of_app. right. by apply elem_of_elements. }
    split; [exact Hset|]. split.
    { intros ws. rewrite Hset. apply elem_of_difference. }
    split; [exact Hi|].
    intros ws Hws Hok. rewrite Hi. apply elem_of_app. right.
    apply (list_elem_of_fmap_2 (fun ws => (ws, m))).
    apply list_elem_of_filter. split; [done | by apply elem_of_elements].
  - apply NoDup_filter, NoDup_elements.
  - intros r Hr. apply list_elem_of_filter in Hr as [_ Hr]. by apply elem_of_elements.
Qed.

End Broadcast.

End Registry.

(** ** [list.sort]

    Python's [list.sort(key=...)] is a stable sort that compares with [<]
    only.  It is modelled by a stable insertion sort; [stable_sort_unique]
    shows that the result of a stable sort does not depend on the algorithm. *)
Module PySort.

Section StableSort.
Context {A : Type} (lt : A -> A -> bool).

(** [x] goes in front of the first element that is not smaller than it. *)
Fixpoint insert (x : A) (l : list A) : list A :=
  match l with
  | [] => [x]
  | y :: l' => if lt y x then y :: insert x l' else x :: y :: l'
  end.

Definition sort (l : list A) : list A := foldr insert [] l.

(** [a] comes no later than [b]. *)
Definition le (a b : A) : Prop := lt b a = false.
(** Neither is smaller: the two compare equal. *)
Definition equiv (a b : A) : Prop := lt a b = false /\ lt b a = false.

#[local] Instance equiv_dec a b : Decision (equiv a b).
Proof. unfold equiv. apply _. Defined.

Hypothesis lt_asym : forall a b, lt a b = true -> lt b a = false.
Hypothesis le_trans : forall a b c, le a b -> le b c -> le a c.

Lemma lt_irrefl a : lt a a = false.
Proof. destruct (lt a a) eqn:E; [|done]. by rewrite (lt_asym _ _ E) in E. Qed.

Lemma equiv_refl a : equiv a a.
Proof. split; apply lt_irrefl. Qed.

Lemma insert_Permutation x l : Permutation (x :: l) (insert x l).
Proof.
  induction l as [|y l IH]; simpl; [done|].
  destruct (lt y x); [|done].
  rewrite <- IH. apply perm_swap.
Qed.

Lemma sort_Permutation l : Permutation l (sort l).
Proof.
  induction l as [|x l IH]; simpl; [done|].
  rewrite <- insert_Permutation. by constructor.
Qed.

Lemma insert_sorted x l : StronglySorted le l -> StronglySorted le (insert x l).
Proof.
  induction 1 as [|y l Hs IH Hy]; simpl.
  - repeat constructor.
  - destruct (lt y x) eqn:E.
    + constructor; [done|].
      rewrite <- insert_Permutation. constructor; [|done].
      unfold le. by apply lt_asym.
    + constructor; [by constructor|].
      constructor; [exact E|].
      eapply Forall_impl; [exact Hy|]. intros z Hz. by apply (le_trans x y z).
Qed.

Lemma sort_sorted l : StronglySorted le (sort l).
Proof.
  induction l as [|x l IH]; simpl; [constructor|]. by apply insert_sorted.
Qed.

Lemma filter_insert k x l :
  filter (equiv k) (insert x l) =
  if decide (equiv k x) then x :: filter (equiv k) l else filter (equiv k) l.
Proof.
  induction l as [|y l IH]; simpl.
  - rewrite filter_cons, filter_nil. done.
  - destruct (lt y x) eqn:E.
    + rewrite !(filter_cons _ y), IH.
      destruct (decide (equiv k y)) as [Hy|Hy], (decide (equiv k x)) as [Hx|Hx]; try done.
      exfalso. destruct Hx as [Hx1 Hx2], Hy as [Hy1 Hy2].
      assert (H : le x y) by (by apply (le_trans x k y)).
      unfold le in H. congruence.
    + rewrite (filter_cons _ x). done.
Qed.

(** Stability: the elements that compare equal to [k] keep their order. *)
Lemma sort_stable k l : filter (equiv k) (sort l) = filter (equiv k) l.
Proof.
  induction l as [|x l IH]; simpl; [done|].
  rewrite filter_insert, filter_cons, IH. done.
Qed.

(** A sorted list is determined by its classes of equal elements: two
    stably sorted arrangements of the same input coincide. *)
Lemma stable_sort_unique l1 l2 :
  StronglySorted le l1 -> StronglySorted le l2 ->
  (forall k, filter (equiv k) l1 = filter (equiv k) l2) ->
  l1 = l2.
Proof.
  intros H1. revert l2. induction H1 as [|a l1 Hs1 IH Ha]; intros l2 H2 Hf.
  - destruct l2 as [|b l2]; [done|].
    specialize (Hf b). rewrite filter_nil, filter_cons in Hf.
    rewrite decide_True in Hf by apply equiv_refl. done.
  - destruct H2 as [|b l2 Hs2 Hb].
    { specialize (Hf a). rewrite filter_nil, filter_cons in Hf.
      rewrite decide_True in Hf by apply equiv_refl. done. }
    assert (Hab : le a b).
    { pose proof (Hf b) as Hfb. rewrite (filter_cons _ b l2) in Hfb.
      rewrite decide_True in Hfb by apply equiv_refl.
      assert (Hin : b ∈ filter (equiv b) (a :: l1)) by (rewrite Hfb; left).
      apply list_elem_of_filter in Hin as [_ Hin].
      apply elem_of_cons in Hin as [->|Hin]; [apply lt_irrefl|].
      by apply (proj1 (Forall_forall _ _) Ha). }
    assert (Hba : le b a).
    { pose proof (Hf a) as Hfa. rewrite (filter_cons _ a l1) in Hfa.
      rewrite decide_True in Hfa by apply equiv_refl.
      assert (Hin : a ∈ filter (equiv a) (b :: l2)) by (rewrite <- Hfa; left).
      apply list_elem_of_filter in Hin as [_ Hin].
      apply elem_of_cons in Hin as [->|Hin]; [apply lt_irrefl|].
      by apply (proj1 (Forall_forall _ _) Hb). }
    assert (a = b) as <-.
    { pose proof (Hf a) as Hfa. rewrite !filter_cons in Hfa.
      rewrite decide_True in Hfa by apply equiv_refl.
      rewrite decide_True in Hfa by (split; [exact Hba | exact Hab]).
      congruence. }
    f_equal. apply IH; [done|]. intros k. specialize (Hf k).
    rewrite !filter_cons in Hf. destruct (decide (equiv k a)); congruence.
Qed.

End StableSort.

End PySort.

(** ** main.py: driver states and the leaderboard *)
Module Main.
Import PyDict.

(** *** Values

    A float that is not NaN, as the exact rational it denotes, or an
    infinity.  (A NaN never compares equal or smaller; the ranking below is
    over values that have an order.) *)
Inductive xnum := NInf | Fin (q : Q) | PInf.

(** The scalar values of a decoded JSON payload. *)
Inductive value :=
  | VNull
  | VBool (b : bool)
  | VInt (n : Z)
  | VFloat (x : xnum)
  | VStr (s : string).

(** One driver's state, and one telemetry payload: a [dict] from field names
    to values. *)
Abbreviation snapshot := (gmap string value).

(** The conversions Python's built-ins make on strings and between number
    types, which depend on the text of the string and on binary64 rounding:
    [int(s)], [float(s)], [float(n)] for an [int], [str(v)], and
    [int(t * 1000)] for a clock reading [t], where the product is rounded to
    binary64 before it is truncated (at [t = 0.29] it is 289, not 290). *)
Record builtins := Builtins {
  int_of_str : string -> option Z;
  float_of_str : string -> option xnum;
  float_of_int : Z -> option xnum;
  str : value -> string;
  millis : Q -> Z;
}.

(** [int(v)]: truncation towards zero on a float, [OverflowError] on an
    infinity, [TypeError] on [None]. *)
Definition py_int (py : builtins) (v : value) : option Z :=
  match v with
  | VInt n => Some n
  | VBool b => Some (Z.b2z b)
  | VFloat (Fin q) => Some (Z.quot (Qnum q) (Z.pos (Qden q)))
  | VFloat _ => None
  | VStr s => int_of_str py s
  | VNull => None
  end.

(** [float(v)] *)
Definition py_float (py : builtins) (v : value) : option xnum :=
  match v with
  | VFloat x => Some x
  | VInt n => float_of_int py n
  | VBool b => Some (Fin (inject_Z (Z.b2z b)))
  | VStr s => float_of_str py s
  | VNull => None
  end.

(** [==] and [<] on floats. *)
Definition xcmp (a b : xnum) : comparison :=
  match a, b with
  | NInf, NInf => Eq
  | NInf, _ => Lt
  | Fin _, NInf => Gt
  | Fin p, Fin q => (p ?= q)%Q
  | Fin _, PInf => Lt
  | PInf, PInf => Eq
  | PInf, _ => Gt
  end.
Definition xeqb (a b : xnum) : bool := match xcmp a b with Eq => true | _ => false end.
Definition xltb (a b : xnum) : bool := match xcmp a b with Lt => true | _ => false end.

(** *** The sort key *)

Definition key : Type := Z * Z * xnum * xnum.

(** [sort_key(d)]; [None] when one of the conversions raises. *)
Definition sort_key (py : builtins) (d : snapshot) : option key :=
  laps ← py_int py (default (VInt 0) (d !! "completed_laps"));
  pos ← py_int py (default (VInt 9999) (d !! "position"));
  total ← py_float py (default (VFloat PInf) (d !! "total_time"));
  best ← py_float py (default (VFloat PInf) (d !! "best_lap"));
  Some (- laps, pos, total, best)%Z.

(** [a < b] on two such tuples, as Python compares tuples: the first
    position where the items are not [==] decides by [<]. *)
Definition key_ltb (a b : key) : bool :=
  let '(a1, a2, a3, a4) := a in
  let '(b1, b2, b3, b4) := b in
  if negb (a1 =? b1)%Z then (a1 <? b1)%Z
  else if negb (a2 =? b2)%Z then (a2 <? b2)%Z
  else if negb (xeqb a3 b3) then xltb a3 b3
  else xltb a4 b4.

(** [a == b] on two such tuples: a tie on all four fields. *)
Definition key_eqb (a b : key) : bool :=
  let '(a1, a2, a3, a4) := a in
  let '(b1, b2, b3, b4) := b in
  (a1 =? b1)%Z && (a2 =? b2)%Z && xeqb a3 b3 && xeqb a4 b4.

(** *** recompute_leaderboard *)

Definition MAX_LEADERBOARD : nat := 20.

(** [list.sort(key=sort_key)] computes every key first, then sorts the
    (key, item) pairs by key. *)
Definition decorate (py : builtins) (drivers : list snapshot) : option (list (key * snapshot)) :=
  mapM (fun d => k ← sort_key py d; Some (k, d)) drivers.

Definition entry_ltb (a b : key * snapshot) : bool := key_ltb (fst a) (fst b).

Definition sort_by_key (py : builtins) (drivers : list snapshot) : option (list snapshot) :=
  decorated ← decorate py drivers;
  Some (map snd (PySort.sort entry_ltb decorated)).

(** [for idx, d in enumerate(top, start=idx): item = d.copy(); item["rank"] = idx] *)
Fixpoint annotate (idx : Z) (top : list snapshot) : list snapshot :=
  match top with
  | [] => []
  | d :: rest => <["rank" := VInt idx]> d :: annotate (idx + 1) rest
  end.

(** [recompute_leaderboard()] on the current [driver_states], a [dict] in
    insertion order. *)
Definition recompute_leaderboard (py : builtins) (driver_states : list (string * snapshot))
  : option (list snapshot) :=
  let drivers := dict_values driver_states in
  drivers ← sort_by_key py drivers;
  let top := take MAX_LEADERBOARD drivers in
  Some (annotate 1 top).

(** *** The order of the keys *)

Lemma xcmp_sym a b : xcmp b a = CompOpp (xcmp a b).
Proof. destruct a, b; simpl; try done. symmetry. apply Qcompare_antisym. Qed.

Ltac xcmp_cases :=
  intros; repeat match goal with x : xnum |- _ => destruct x end; simpl in *;
  try done; rewrite <- ?Qeq_alt, <- ?Qlt_alt, <- ?Qgt_alt in *; lra.

Lemma xcmp_refl a : xcmp a a = Eq.
Proof. xcmp_cases. Qed.
Lemma xcmp_eq_eq a b c : xcmp a b = Eq -> xcmp b c = Eq -> xcmp a c = Eq.
Proof. xcmp_cases. Qed.
Lemma xcmp_lt_lt a b c : xcmp a b = Lt -> xcmp b c = Lt -> xcmp a c = Lt.
Proof. xcmp_cases. Qed.
Lemma xcmp_lt_eq a b c : xcmp a b = Lt -> xcmp b c = Eq -> xcmp a c = Lt.
Proof. xcmp_cases. Qed.
Lemma xcmp_eq_lt a b c : xcmp a b = Eq -> xcmp b c = Lt -> xcmp a c = Lt.
Proof. xcmp_cases. Qed.

(** Tuples of numbers of any length, compared as Python does. *)
Fixpoint tuple_ltb (a b : list xnum) : bool :=
  match a, b with
  | x :: a', y :: b' =>
      match xcmp x y with Eq => tuple_ltb a' b' | Lt => true | Gt => false end
  | [], _ :: _ => true
  | _, [] => false
  end.

Lemma tuple_ltb_asym a b : tuple_ltb a b = true -> tuple_ltb b a = false.
Proof.
  revert b. induction a as [|x a IH]; intros [|y b]; simpl; try done.
  rewrite (xcmp_sym x y). destruct (xcmp x y); simpl; try done. apply IH.
Qed.

Lemma tuple_ltb_le_trans a b c :
  tuple_ltb b a = false -> tuple_ltb c b = false -> tuple_ltb c a = false.
Proof.
  revert b c. induction a as [|x a IH]; intros [|y b] [|z c]; simpl; try done.
  rewrite (xcmp_sym x y), (xcmp_sym y z), (xcmp_sym x z).
  destruct (xcmp x y) eqn:Exy, (xcmp y z) eqn:Eyz; simpl; try done.
  - rewrite (xcmp_eq_eq x y z) by done. simpl. apply IH.
  - by rewrite (xcmp_eq_lt x y z).
  - by rewrite (xcmp_lt_eq x y z).
  - by rewrite (xcmp_lt_lt x y z).
Qed.

Definition key_items (k : key) : list xnum :=
  let '(k1, k2, k3, k4) := k in [Fin (inject_Z k1); Fin (inject_Z k2); k3; k4].

Lemma xcmp_inject_Z m n : xcmp (Fin (inject_Z m)) (Fin (inject_Z n)) = (m ?= n)%Z.
Proof. simpl. unfold Qcompare. simpl. by rewrite !Z.mul_1_r. Qed.

Lemma key_ltb_tuple a b : key_ltb a b = tuple_ltb (key_items a) (key_items b).
Proof.
  destruct a as [[[a1 a2] a3] a4], b as [[[b1 b2] b3] b4].
  unfold key_ltb, key_items, tuple_ltb, xeqb, xltb. rewrite !xcmp_inject_Z.
  destruct (Z.compare_spec a1 b1) as [->|H1|H1].
  - rewrite Z.eqb_refl. simpl.
    destruct (Z.compare_spec a2 b2) as [->|H2|H2].
    + rewrite Z.eqb_refl. simpl. by destruct (xcmp a3 b3), (xcmp a4 b4).
    + rewrite (proj2 (Z.eqb_neq _ _)) by lia. simpl. by apply Z.ltb_lt.
    + rewrite (proj2 (Z.eqb_neq _ _)) by lia. simpl. apply Z.ltb_ge. lia.
  - rewrite (proj2 (Z.eqb_neq _ _)) by lia. simpl. by apply Z.ltb_lt.
  - rewrite (proj2 (Z.eqb_neq _ _)) by lia. simpl. apply Z.ltb_ge. lia.
Qed.

Lemma key_ltb_asym a b : key_ltb a b = true -> key_ltb b a = false.
Proof. rewrite !key_ltb_tuple. apply tuple_ltb_asym. Qed.

Lemma key_ltb_le_trans a b c :
  key_ltb b a = false -> key_ltb c b = false -> key_ltb c a = false.
Proof. rewrite !key_ltb_tuple. apply tuple_ltb_le_trans. Qed.

(** A tie on all four fields is the same as neither key being smaller. *)
Lemma key_eqb_equiv a b :
  key_eqb a b = true <-> key_ltb a b = false /\ key_ltb b a = false.
Proof.
  destruct a as [[[a1 a2] a3] a4], b as [[[b1 b2] b3] b4].
  unfold key_eqb, key_ltb, xeqb, xltb.
  rewrite (xcmp_sym a3 b3), (xcmp_sym a4 b4).
  destruct (Z.eqb_spec a1 b1) as [->|H1].
  2:{ simpl. rewrite (proj2 (Z.eqb_neq b1 a1)) by lia. simpl.
      split; [done|]. intros [H H']. apply Z.ltb_ge in H, H'. lia. }
  rewrite Z.eqb_refl. simpl.
  destruct (Z.eqb_spec a2 b2) as [->|H2].
  2:{ simpl. rewrite (proj2 (Z.eqb_neq b2 a2)) by lia. simpl.
      split; [done|]. intros [H H']. apply Z.ltb_ge in H, H'. lia. }
  rewrite Z.eqb_refl. simpl.
  destruct (xcmp a3 b3), (xcmp a4 b4); simpl; intuition congruence.
Qed.

(** *** The leaderboard is the stably sorted, truncated, ranked input *)

(** [d1] may stand before [d2]: its key is not the greater one. *)
Definition ranks_before (py : builtins) (d1 d2 : snapshot) : Prop :=
  exists k1 k2, sort_key py d1 = Some k1 /\ sort_key py d2 = Some k2 /\ key_ltb k2 k1 = false.

(** [d]'s key ties with [k] on all four fields. *)
Definition tiedb (py : builtins) (k : key) (d : snapshot) : bool :=
  match sort_key py d with
  | Some k' => key_eqb k k'
  | None => false
  end.

Lemma decorate_spec py drivers decorated :
  decorate py drivers = Some decorated ->
  map snd decorated = drivers /\ Forall (fun e => sort_key py (snd e) = Some (fst e)) decorated.
Proof.
  unfold decorate. rewrite mapM_Some.
  induction 1 as [|d e drivers decorated Hde _ [IH1 IH2]]; simpl; [done|].
  destruct (sort_key py d) as [k|] eqn:Ek; simplify_eq/=.
  split; [done | by constructor].
Qed.

Lemma decorate_is_Some py drivers :
  Forall (fun d => is_Some (sort_key py d)) drivers -> is_Some (decorate py drivers).
Proof.
  intros H. apply mapM_is_Some_2. eapply Forall_impl; [exact H|].
  intros d [k Hk]. simpl. rewrite Hk. by eexists.
Qed.

Lemma filter_ext_Forall {A} (P Q : A -> Prop) `{!forall x, Decision (P x)} `{!forall x, Decision (Q x)} l :
  Forall (fun x => P x <-> Q x) l -> filter P l = filter Q l.
Proof.
  induction 1 as [|x l Hx _ IH]; [done|].
  rewrite !filter_cons, IH. destruct (decide (P x)), (decide (Q x)); tauto.
Qed.

Lemma filter_map {A B} (P : B -> Prop) `{!forall y, Decision (P y)} (f : A -> B) l :
  filter P (map f l) = map f (filter (fun x => P (f x)) l).
Proof.
  induction l as [|x l IH]; simpl; [done|].
  rewrite !filter_cons, IH. by destruct (decide (P (f x))).
Qed.

Lemma StronglySorted_map_Forall {A B} (R1 : relation A) (R2 : relation B) (P : A -> Prop) (f : A -> B) l :
  (forall x y, P x -> P y -> R1 x y -> R2 (f x) (f y)) ->
  Forall P l -> StronglySorted R1 l -> StronglySorted R2 (map f l).
Proof.
  intros HR HP Hs. induction Hs as [|x l Hs IH Hx]; simpl; [constructor|].
  apply Forall_cons in HP as [Px HP]. constructor; [by apply IH|].
  apply Forall_fmap, Forall_forall. intros y Hy. simpl.
  apply HR; [done| |].
  - by apply (proj1 (Forall_forall _ _) HP).
  - by apply (proj1 (Forall_forall _ _) Hx).
Qed.


Lemma annotate_lookup idx top (i : nat) :
  annotate idx top !! i = (fun d => <["rank" := VInt (idx + Z.of_nat i)]> d) <$> top !! i.
Proof.
  revert idx i. induction top as [|d top IH]; intros idx i; simpl; [done|].
  destruct i as [|i]; simpl.
  - by rewrite Z.add_0_r.
  - rewrite IH. replace (idx + 1 + Z.of_nat i)%Z with (idx + Z.of_nat (S i))%Z by lia. done.
Qed.

(** What [sort_by_key] returns, when no conversion raises. *)
Lemma sort_by_key_spec py drivers :
  Forall (fun d => is_Some (sort_key py d)) drivers ->
  exists sorted,
    sort_by_key py drivers = Some sorted /\
    Permutation drivers sorted /\
    StronglySorted (ranks_before py) sorted /\
    (forall k, filter (fun d => tiedb py k d = true) sorted
               = filter (fun d => tiedb py k d = true) drivers).
Proof.
  intros Hk. destruct (decorate_is_Some py drivers Hk) as [decorated Hd].
  unfold sort_by_key. rewrite Hd. simpl.
  destruct (decorate_spec _ _ _ Hd) as [Hsnd Hkeys].
  eexists. split; [reflexivity|].
  pose proof (PySort.sort_Permutation entry_ltb decorated) as Hperm.
  assert (Hkeys' : Forall (fun e => sort_key py (snd e) = Some (fst e)) (PySort.sort entry_ltb decorated)).
  { by rewrite <- Hperm. }
  assert (Hasym : forall a b, entry_ltb a b = true -> entry_ltb b a = false).
  { intros a b. apply key_ltb_asym. }
  assert (Htrans : forall a b c, PySort.le entry_ltb a b -> PySort.le entry_ltb b c -> PySort.le entry_ltb a c).
  { intros a b c. apply key_ltb_le_trans. }
  split; [|split].
  - rewrite <- Hsnd. by apply fmap_Permutation.
  - eapply (StronglySorted_map_Forall (PySort.le entry_ltb)); [|exact Hkeys'|].
    + intros x y Px Py Hxy. exists (fst x), (fst y). done.
    + by apply PySort.sort_sorted.
  - intros k. rewrite <- Hsnd.
    rewrite !filter_map. f_equal.
    assert (Hext : forall l, Forall (fun e => sort_key py (snd e) = Some (fst e)) l ->
              filter (fun e => tiedb py k (snd e) = true) l
              = filter (PySort.equiv entry_ltb (k, ∅)) l).
    { intros l Hl. apply filter_ext_Forall. eapply Forall_impl; [exact Hl|].
      intros e He. simpl. unfold tiedb. rewrite He. apply key_eqb_equiv. }
    rewrite !Hext by done.
    by apply PySort.sort_stable.
Qed.

(** The scenario of the design document: two cars on three laps each;
    car_01, seen first, runs second, car_02 runs first. *)
Definition car_01 : snapshot :=
  {[ "driver_id" := VStr "car_01"; "completed_laps" := VInt 3; "position" := VInt 2 ]}.












(** *** The server state and the debounced emit

    The globals of [main.py] ([driver_states], [last_emit_ts], [_emit_task],
    [_current_replay]) together with what the event loop holds: the tasks
    created and not yet finished, the clock, and the messages handed to
    [sio.emit].  Times are exact rationals, in seconds. *)

(** One entry of [_current_replay["telemetry"]]. *)
Record replay_entry := ReplayEntry {
  re_ts : Z;
  re_driver_id : string;
  re_payload : snapshot;
}.

(** The [_delayed_emit] coroutine between its two suspension points: asleep
    until its deadline, or inside [sio.emit] with the leaderboard it computed
    on waking. *)
Inductive task :=
  | Sleeping (deadline : Q)
  | Emitting (leaderboard : list snapshot).

Inductive emitted :=
  | LeaderboardUpdate (at_time : Q) (leaderboard : list snapshot)
  | DriverUpdate (room : option string) (driver_id : string) (state : snapshot).

Record server := Server {
  driver_states : list (string * snapshot);
  last_emit_ts : Q;
  emit_task : option nat;
  current_replay : option (list replay_entry);
  tasks : list (nat * task);
  next_task_id : nat;
  clock : Q;
  outbox : list emitted;
}.

Definition init : server := Server [] 0 None None [] 0 0 [].

Definition EMIT_INTERVAL_S : Q := 1 # 2.

(** [max(a, b)]: [a] unless [b] is greater. *)
Definition py_max (a b : Q) : Q := if Qle_bool b a then a else b.

(** [task.done()] for the task with this id. *)
Definition task_done (tid : nat) (s : server) : bool :=
  match dict_get tid (tasks s) with Some _ => false | None => true end.

(** [asyncio.create_task(_delayed_emit(remaining))], called at time [now],
    and the assignment of the new task to [_emit_task]. *)
Definition create_emit_task (now remaining : Q) (s : server) : server :=
  Server (driver_states s) (last_emit_ts s) (Some (next_task_id s)) (current_replay s)
         (tasks s ++ [(next_task_id s, Sleeping (now + remaining))])
         (S (next_task_id s)) (clock s) (outbox s).

(** [schedule_emit_leaderboard()] called at time [now]. *)
Definition schedule_emit_leaderboard (now : Q) (s : server) : server :=
  let elapsed := (now - last_emit_ts s)%Q in
  let remaining := py_max 0 (EMIT_INTERVAL_S - elapsed) in
  match emit_task s with
  | Some tid => if task_done tid s then create_emit_task now remaining s else s
  | None => create_emit_task now remaining s
  end.

(** [process_telemetry_update(payload, sid)] called at time [now]; [None] is
    the [ValueError] for a payload without ["driver_id"], raised before
    anything is changed. *)
Definition process_telemetry_update (py : builtins) (now : Q) (payload : snapshot)
    (sid : option string) (s : server) : option server :=
  match payload !! "driver_id" with
  | None => None
  | Some id =>
      let driver_id := str py id in
      let existing := default ∅ (dict_get driver_id (driver_states s)) in
      let updated := <["last_update_ts" := VFloat (Fin now)]> (payload ∪ existing) in
      let states := dict_set driver_id updated (driver_states s) in
      let replay :=
        (fun entries => entries ++ [ReplayEntry (millis py now) driver_id payload])
          <$> current_replay s in
      let s := Server states (last_emit_ts s) (emit_task s) replay
                      (tasks s) (next_task_id s) (clock s) (outbox s) in
      let s := schedule_emit_leaderboard now s in
      Some (Server (driver_states s) (last_emit_ts s) (emit_task s) (current_replay s)
                   (tasks s) (next_task_id s) (clock s)
                   (outbox s ++ [DriverUpdate sid driver_id updated]))
  end.

(** What the event loop does next: run a telemetry handler, resume the emit
    task when its sleep is over, or resume it when its [sio.emit] returns. *)
Inductive event :=
  | Telemetry (t : Q) (payload : snapshot) (sid : option string)
  | Wake (tid : nat) (t : Q)
  | Delivered (tid : nat) (t : Q).

Definition event_time (ev : event) : Q :=
  match ev with Telemetry t _ _ => t | Wake _ t => t | Delivered _ t => t end.

Definition set_clock (t : Q) (s : server) : server :=
  Server (driver_states s) (last_emit_ts s) (emit_task s) (current_replay s)
         (tasks s) (next_task_id s) t (outbox s).

Definition remove_task (tid : nat) (ts : list (nat * task)) : list (nat * task) :=
  filter (fun e => fst e <> tid) ts.

(** The [finally] block, [_emit_task = None], and the end of the task. *)
Definition finish_task (tid : nat) (s : server) : server :=
  Server (driver_states s) (last_emit_ts s) None (current_replay s)
         (remove_task tid (tasks s)) (next_task_id s) (clock s) (outbox s).

(** What the event does once the clock shows its time; [None] when the
    task is not there or is still asleep. *)
Definition handle (py : builtins) (ev : event) (s : server) : option server :=
  match ev with
  | Telemetry t payload sid =>
      match process_telemetry_update py t payload sid s with
      | Some s' => Some s'
      | None => Some s
      end
  | Wake tid t =>
      match dict_get tid (tasks s) with
      | Some (Sleeping deadline) =>
          if Qle_bool deadline t then
            match recompute_leaderboard py (driver_states s) with
            | Some lb =>
                Some (Server (driver_states s) (last_emit_ts s) (emit_task s) (current_replay s)
                             (dict_set tid (Emitting lb) (tasks s))
                             (next_task_id s) (clock s) (outbox s))
            | None => Some (finish_task tid s)
            end
          else None
      | _ => None
      end
  | Delivered tid t =>
      match dict_get tid (tasks s) with
      | Some (Emitting lb) =>
          Some (finish_task tid
                  (Server (driver_states s) t (emit_task s) (current_replay s)
                          (tasks s) (next_task_id s) (clock s)
                          (outbox s ++ [LeaderboardUpdate t lb])))
      | _ => None
      end
  end.

(** One step at the time the event carries; [None] when the event cannot
    happen in this state (the clock would run backwards, or [handle] says
    so). *)
Definition step (py : builtins) (ev : event) (s : server) : option server :=
  if Qle_bool (clock s) (event_time ev)
  then handle py ev (set_clock (event_time ev) s)
  else None.

Fixpoint run (py : builtins) (evs : list event) (s : server) : option server :=
  match evs with
  | [] => Some s
  | ev :: evs' =>
      match step py ev s with
      | Some s' => run py evs' s'
      | None => None
      end
  end.

Definition reachable (py : builtins) (s : server) : Prop :=
  exists evs, run py evs init = Some s.

(** The leaderboard broadcasts delivered so far, oldest first. *)
Definition broadcasts (s : server) : list (Q * list snapshot) :=
  omap (fun m => match m with LeaderboardUpdate t lb => Some (t, lb) | _ => None end) (outbox s).

(** *** Merging telemetry into the store *)

(** The state stored for a driver, empty when the driver is unknown. *)
Definition snapshot_of (driver : string) (s : server) : snapshot :=
  default ∅ (dict_get driver (driver_states s)).

(** A telemetry call: its time, payload and sender. *)
Definition update : Type := Q * snapshot * option string.

(** The driver a payload is about. *)
Definition driver_of (py : builtins) (payload : snapshot) : option string :=
  str py <$> payload !! "driver_id".

(** The handlers around [process_telemetry_update] catch its [ValueError]
    and answer with an error, so a rejected payload leaves the state as it
    was. *)
Definition ingest (py : builtins) (s : server) (u : update) : server :=
  let '(now, payload, sid) := u in
  default s (process_telemetry_update py now payload sid s).

Definition ingest_all (py : builtins) (us : list update) (s : server) : server :=
  fold_left (ingest py) us s.

Lemma schedule_driver_states now s :
  driver_states (schedule_emit_leaderboard now s) = driver_states s.
Proof.
  unfold schedule_emit_leaderboard.
  destruct (emit_task s) as [tid|]; [destruct (task_done tid s)|]; done.
Qed.

Lemma process_driver_states py now payload sid s s' :
  process_telemetry_update py now payload sid s = Some s' ->
  exists id,
    payload !! "driver_id" = Some id /\
    driver_states s' =
      dict_set (str py id)
        (<["last_update_ts" := VFloat (Fin now)]> (payload ∪ snapshot_of (str py id) s))
        (driver_states s).
Proof.
  unfold process_telemetry_update. destruct (payload !! "driver_id") as [id|]; [|done].
  intros [= <-]. exists id. split; [done|]. simpl. by rewrite schedule_driver_states.
Qed.



(** *** The debounced emit as a state machine *)

(** Broadcast times at least one interval apart. *)
Definition spaced (times : list Q) : Prop :=
  StronglySorted (fun a b => a + EMIT_INTERVAL_S <= b)%Q times.

(** The deferred task, when there is one, is the only one, [_emit_task]
    names it, and it will not emit before one interval after the last
    emission. *)
Definition one_task (s : server) : Prop :=
  (tasks s = [] /\ emit_task s = None) \/
  (exists tid tk,
     tasks s = [(tid, tk)] /\ emit_task s = Some tid /\
     match tk with
     | Sleeping deadline => (last_emit_ts s + EMIT_INTERVAL_S <= deadline)%Q
     | Emitting _ => (last_emit_ts s + EMIT_INTERVAL_S <= clock s)%Q
     end).

Definition inv (s : server) : Prop :=
  one_task s /\
  (last_emit_ts s <= clock s)%Q /\
  Forall (fun b => (fst b <= last_emit_ts s)%Q) (broadcasts s) /\
  spaced (map fst (broadcasts s)).

Definition telemetry_events (us : list update) : list event :=
  map (fun u : update => Telemetry (fst (fst u)) (snd (fst u)) (snd u)) us.

Lemma py_max_ge a b : (a <= py_max a b /\ b <= py_max a b)%Q.
Proof.
  unfold py_max. destruct (Qle_bool b a) eqn:E.
  - apply Qle_bool_iff in E. lra.
  - assert (~ (b <= a)%Q) by (rewrite <- Qle_bool_iff; congruence). lra.
Qed.

Lemma broadcasts_app_driver s room driver state :
  omap (fun m => match m with LeaderboardUpdate t lb => Some (t, lb) | _ => None end)
       (outbox s ++ [DriverUpdate room driver state]) = broadcasts s.
Proof. unfold broadcasts. rewrite omap_app. simpl. by rewrite app_nil_r. Qed.

Lemma broadcasts_app_leaderboard s t lb :
  omap (fun m => match m with LeaderboardUpdate t lb => Some (t, lb) | _ => None end)
       (outbox s ++ [LeaderboardUpdate t lb]) = broadcasts s ++ [(t, lb)].
Proof. unfold broadcasts. by rewrite omap_app. Qed.

(** While a task is outstanding, [schedule_emit_leaderboard] does nothing. *)
Lemma schedule_pending now s tid tk :
  tasks s = [(tid, tk)] -> emit_task s = Some tid ->
  schedule_emit_leaderboard now s = s.
Proof.
  intros Ht He. unfold schedule_emit_leaderboard, task_done. rewrite He, Ht. simpl.
  by rewrite decide_True.
Qed.

(** When idle, it creates the one task, due one interval after the last
    emission or at once. *)
Lemma schedule_idle now s :
  tasks s = [] -> emit_task s = None ->
  schedule_emit_leaderboard now s =
    create_emit_task now (py_max 0 (EMIT_INTERVAL_S - (now - last_emit_ts s))) s.
Proof. intros Ht He. unfold schedule_emit_leaderboard. by rewrite He. Qed.

Lemma schedule_inv now s : inv s -> inv (schedule_emit_leaderboard now s).
Proof.
  intros (H1 & H2 & H3 & H4). destruct H1 as [[Ht He]|(tid & tk & Ht & He & Hd)].
  - rewrite schedule_idle by done. unfold inv, one_task, create_emit_task, broadcasts in *.
    simpl. rewrite Ht. simpl. split; [|done].
    right. eexists _, _. split; [done|]. split; [done|].
    destruct (py_max_ge 0 (EMIT_INTERVAL_S - (now - last_emit_ts s))) as [_ Hm]. lra.
  - rewrite (schedule_pending now s tid tk) by done.
    split; [|done]. right. by exists tid, tk.
Qed.

Lemma process_inv py now payload sid s s' :
  inv s -> process_telemetry_update py now payload sid s = Some s' -> inv s'.
Proof.
  intros Hi. unfold process_telemetry_update.
  destruct (payload !! "driver_id") as [id|]; [|done]. intros [= <-].
  match goal with |- context [schedule_emit_leaderboard now ?s0] =>
    assert (Hs : inv s0) by exact Hi;
    apply (schedule_inv now) in Hs;
    destruct (schedule_emit_leaderboard now s0) as [ds le et cr ts nt ck ob] end.
  destruct Hs as (H1 & H2 & H3 & H4).
  unfold inv, one_task, broadcasts in *. simpl in *.
  rewrite omap_app. simpl. rewrite app_nil_r. done.
Qed.

Lemma set_clock_inv t s : (clock s <= t)%Q -> inv s -> inv (set_clock t s).
Proof.
  intros Hc ([[Ht He]|(tid & tk & Ht & He & Hd)] & H2 & H3 & H4);
    unfold inv, one_task, set_clock, broadcasts in *; simpl.
  - split; [by left|]. split; [lra|done].
  - split; [|split; [lra|done]].
    right. exists tid, tk. split; [done|]. split; [done|].
    destruct tk; [done | lra].
Qed.

Lemma handle_inv py ev s s' :
  inv s -> clock s = event_time ev -> handle py ev s = Some s' -> inv s'.
Proof.
  intros Hi Hck.
  destruct ev as [t payload sid|tid t|tid t]; simpl in *.
  - destruct (process_telemetry_update py t payload sid s) as [s1|] eqn:E; intros [= <-]; [|done].
    by eapply process_inv.
  - destruct Hi as ([[Ht He]|(tid' & tk & Ht & He & Hd)] & H2 & H3 & H4).
    { by rewrite Ht. }
    rewrite Ht. simpl. destruct (decide (tid = tid')) as [->|]; [|done].
    destruct tk as [deadline|]; [|done].
    destruct (Qle_bool deadline t) eqn:Hdl; [|done]. apply Qle_bool_iff in Hdl.
    destruct (recompute_leaderboard py (driver_states s)) as [lb|]; intros [= <-];
      unfold inv, one_task, finish_task, remove_task, broadcasts in *; simpl.
    + split; [|done]. right. eexists _, _. split; [done|]. split; [done|].
      rewrite Hck. lra.
    + rewrite Ht, filter_cons, filter_nil. simpl.
      rewrite decide_False by (intros ?; done). split; [by left|done].
  - destruct Hi as ([[Ht He]|(tid' & tk & Ht & He & Hd)] & H2 & H3 & H4).
    { by rewrite Ht. }
    rewrite Ht. simpl. destruct (decide (tid = tid')) as [->|]; [|done].
    destruct tk as [|lb]; [done|]. intros [= <-].
    unfold inv, one_task, finish_task, remove_task, broadcasts, spaced in *; simpl.
    rewrite filter_cons, filter_nil. simpl.
    rewrite decide_False by (intros ?; done).
    rewrite omap_app, map_app. simpl.
    assert (HI : (0 < EMIT_INTERVAL_S)%Q) by done.
    rewrite Hck in *.
    split; [by left|]. split; [lra|]. split.
    + apply Forall_app. split; [|repeat constructor; simpl; lra].
      eapply Forall_impl; [exact H3|]. intros b Hb. simpl in *. lra.
    + apply StronglySorted_app_2; [|done|repeat constructor].
      intros a b Ha Hb. apply list_elem_of_fmap in Ha as (e & -> & He').
      apply list_elem_of_singleton in Hb as ->.
      pose proof (proj1 (Forall_forall _ _) H3 e He') as Hle. simpl in Hle. lra.
Qed.

Lemma step_inv py ev s s' : inv s -> step py ev s = Some s' -> inv s'.
Proof.
  intros Hi. unfold step.
  destruct (Qle_bool (clock s) (event_time ev)) eqn:Hc; [|done].
  apply Qle_bool_iff in Hc. apply handle_inv; [by apply set_clock_inv | done].
Qed.

Lemma init_inv : inv init.
Proof.
  unfold inv, one_task, init, broadcasts, spaced. simpl.
  split; [by left|]. split; [lra|]. split; constructor.
Qed.

Lemma run_inv py evs s s' : inv s -> run py evs s = Some s' -> inv s'.
Proof.
  revert s. induction evs as [|ev evs IH]; intros s Hi; simpl; [by intros [= <-]|].
  destruct (step py ev s) as [s1|] eqn:E; [|done].
  apply IH. by eapply step_inv.
Qed.

Lemma reachable_inv py s : reachable py s -> inv s.
Proof. intros [evs H]. eapply run_inv; [apply init_inv | exact H]. Qed.

Lemma run_app py evs1 evs2 s :
  run py (evs1 ++ evs2) s = run py evs1 s ≫= run py evs2.
Proof.
  revert s. induction evs1 as [|ev evs1 IH]; intros s; simpl; [done|].
  destruct (step py ev s); [apply IH | done].
Qed.

(** A telemetry call delivers no leaderboard; with a task outstanding it
    leaves the scheduler alone, without one it creates the task (or, for a
    rejected payload, does nothing). *)
Lemma telemetry_step py t payload sid s s1 :
  step py (Telemetry t payload sid) s = Some s1 ->
  broadcasts s1 = broadcasts s /\
  (forall tid tk, tasks s = [(tid, tk)] -> emit_task s = Some tid ->
     tasks s1 = [(tid, tk)] /\ emit_task s1 = Some tid) /\
  (tasks s = [] -> emit_task s = None ->
     (tasks s1 = [] /\ emit_task s1 = None /\ next_task_id s1 = next_task_id s) \/
     (exists deadline, tasks s1 = [(next_task_id s, Sleeping deadline)] /\
                       emit_task s1 = Some (next_task_id s))).
Proof.
  unfold step. simpl. destruct (Qle_bool (clock s) t); [|done].
  unfold process_telemetry_update. simpl.
  destruct (payload !! "driver_id") as [id|]; intros [= <-]; simpl.
  2:{ split; [done|]. split; [done|]. intros Ht He. by left. }
  match goal with |- context [schedule_emit_leaderboard t ?s0] => set (s' := s0) end.
  split; [|split].
  - assert (H : outbox (schedule_emit_leaderboard t s') = outbox s).
    { unfold schedule_emit_leaderboard.
      destruct (emit_task s') as [tid|]; [destruct (task_done tid s')|]; done. }
    unfold broadcasts. simpl. rewrite omap_app, H. simpl. by rewrite app_nil_r.
  - intros tid tk Ht He. by rewrite (schedule_pending t s' tid tk).
  - intros Ht He. right. rewrite schedule_idle by done.
    unfold create_emit_task. simpl. rewrite Ht. simpl. by eexists.
Qed.

Lemma telemetry_burst py us : forall s s1,
  run py (telemetry_events us) s = Some s1 ->
  broadcasts s1 = broadcasts s /\
  (forall tid tk, tasks s = [(tid, tk)] -> emit_task s = Some tid ->
     tasks s1 = [(tid, tk)] /\ emit_task s1 = Some tid) /\
  (tasks s = [] -> emit_task s = None ->
     (tasks s1 = [] /\ emit_task s1 = None) \/
     (exists deadline, tasks s1 = [(next_task_id s, Sleeping deadline)] /\
                       emit_task s1 = Some (next_task_id s))).
Proof.
  induction us as [|[[t payload] sid] us IH]; intros s s1; simpl.
  - intros [= <-]. split; [done|]. split; [done|]. intros Ht He. by left.
  - destruct (step py (Telemetry t payload sid) s) as [s0|] eqn:E; [|done].
    intros Hrun. destruct (telemetry_step _ _ _ _ _ _ E) as (Hb0 & Hp0 & Hi0).
    destruct (IH _ _ Hrun) as (Hb & Hp & Hi).
    split; [congruence|]. split.
    + intros tid tk Ht He. destruct (Hp0 tid tk Ht He) as [Ht0 He0]. by apply Hp.
    + intros Ht He. destruct (Hi0 Ht He) as [(Ht0 & He0 & Hn0)|(d & Ht0 & He0)].
      * rewrite <- Hn0. by apply Hi.
      * right. exists d. by apply Hp.
Qed.

(** The calls of a burst come in the order of their times, none before
    [t0]. *)
Fixpoint in_order (t0 : Q) (us : list update) : Prop :=
  match us with
  | [] => True
  | u :: rest => (t0 <= fst (fst u))%Q /\ in_order (fst (fst u)) rest
  end.

(** A call whose payload names its driver, so that it reaches
    [schedule_emit_leaderboard]. *)
Definition accepted (py : builtins) (u : update) : Prop :=
  is_Some (driver_of py (snd (fst u))).

Lemma schedule_clock now s : clock (schedule_emit_leaderboard now s) = clock s.
Proof.
  unfold schedule_emit_leaderboard.
  destruct (emit_task s) as [tid|]; [destruct (task_done tid s)|]; done.
Qed.

(** A telemetry call can always be handled, at any time the clock has not
    passed. *)
Lemma telemetry_step_runs py t payload sid s :
  (clock s <= t)%Q ->
  exists s0, step py (Telemetry t payload sid) s = Some s0 /\ clock s0 = t.
Proof.
  intros Hc. unfold step. simpl. rewrite (proj2 (Qle_bool_iff _ _) Hc).
  unfold process_telemetry_update.
  destruct (payload !! "driver_id") as [id|]; eexists; (split; [done|]); simpl; [|done].
  by rewrite schedule_clock.
Qed.

Lemma burst_runs py us : forall s,
  in_order (clock s) us -> exists s1, run py (telemetry_events us) s = Some s1.
Proof.
  induction us as [|[[t payload] sid] us IH]; intros s; simpl.
  - intros _. by exists s.
  - intros [Hc Hrest].
    destruct (telemetry_step_runs py t payload sid s Hc) as (s0 & -> & Hck).
    apply IH. by rewrite Hck.
Qed.

(** An accepted call that finds the scheduler idle creates the task. *)
Lemma telemetry_accept py t payload sid s s0 :
  tasks s = [] -> emit_task s = None ->
  is_Some (driver_of py payload) ->
  step py (Telemetry t payload sid) s = Some s0 ->
  exists deadline, tasks s0 = [(next_task_id s, Sleeping deadline)] /\
                   emit_task s0 = Some (next_task_id s).
Proof.
  intros Ht He [driver Hd]. unfold driver_of in Hd.
  unfold step. simpl. destruct (Qle_bool (clock s) t); [|done].
  unfold process_telemetry_update. simpl.
  destruct (payload !! "driver_id") as [id|]; [|done]. intros [= <-]. simpl.
  rewrite schedule_idle by done.
  unfold create_emit_task. simpl. rewrite Ht. simpl. by eexists.
Qed.

Lemma burst_creates_task py us : forall s s1,
  tasks s = [] -> emit_task s = None ->
  Exists (accepted py) us ->
  run py (telemetry_events us) s = Some s1 ->
  exists deadline, tasks s1 = [(next_task_id s, Sleeping deadline)] /\
                   emit_task s1 = Some (next_task_id s).
Proof.
  induction us as [|[[t payload] sid] us IH]; intros s s1 Ht He Hex; simpl.
  - by apply Exists_nil in Hex.
  - destruct (step py (Telemetry t payload sid) s) as [s0|] eqn:E; [|done].
    intros Hrun. destruct (telemetry_step _ _ _ _ _ _ E) as (_ & _ & Hi0).
    destruct (Hi0 Ht He) as [(Ht0 & He0 & Hn0)|(d & Ht0 & He0)].
    + apply Exists_cons in Hex as [Hacc|Hex].
      * destruct (telemetry_accept _ _ _ _ _ _ Ht He Hacc E) as (d & Ht0' & _).
        rewrite Ht0 in Ht0'. discriminate Ht0'.
      * rewrite <- Hn0. by apply (IH s0 s1).
    + destruct (telemetry_burst _ _ _ _ Hrun) as (_ & Hp & _).
      exists d. by apply Hp.
Qed.

(** C3, as the code has it. In every reachable state at most one deferred
    emit task is outstanding, and a notify that arrives while it is
    outstanding changes nothing; the broadcasts delivered are at least
    [EMIT_INTERVAL_S] apart.  Any number of telemetry calls that arrive from
    the idle state, at least one of them accepted, create exactly one task
    and deliver nothing themselves; the task can wake at any time from its
    deadline on, and when it does the leaderboard is computed from the
    driver states as the last of the calls left them: if that succeeds,
    exactly one broadcast is delivered, with that leaderboard; if it raises,
    the task ends and no broadcast is delivered at all.  (Calls less than one
    interval apart that fall on both sides of an emission are answered by two
    broadcasts; see [two_notifies_two_broadcasts].) *)
Theorem debounce_one_task_one_broadcast (py : builtins) (s : server) :
  reachable py s ->
  length (tasks s) <= 1 /\
  (tasks s <> [] -> forall now, schedule_emit_leaderboard now s = s) /\
  spaced (map fst (broadcasts s)) /\
  (tasks s = [] ->
   forall us, in_order (clock s) us -> Exists (accepted py) us ->
     exists s1 deadline,
       run py (telemetry_events us) s = Some s1 /\
       tasks s1 = [(next_task_id s, Sleeping deadline)] /\
       broadcasts s1 = broadcasts s /\
       forall tw td, (clock s1 <= tw)%Q -> (deadline <= tw)%Q -> (tw <= td)%Q ->
         match recompute_leaderboard py (driver_states s1) with
         | Some lb =>
             exists s',
               run py (telemetry_events us
                         ++ [Wake (next_task_id s) tw; Delivered (next_task_id s) td]) s
               = Some s' /\
               broadcasts s' = broadcasts s ++ [(td, lb)] /\
               tasks s' = []
         | None =>
             exists s',
               run py (telemetry_events us ++ [Wake (next_task_id s) tw]) s = Some s' /\
               broadcasts s' = broadcasts s /\
               tasks s' = [] /\
               step py (Delivered (next_task_id s) td) s' = None
         end).
Proof.
  intros Hr. destruct (reachable_inv _ _ Hr) as (H1 & H2 & H3 & H4).
  split; [|split; [|split]].
  - destruct H1 as [[-> _]|(tid & tk & -> & _)]; simpl; lia.
  - intros Hne now. destruct H1 as [[Ht _]|(tid & tk & Ht & He & _)]; [done|].
    by apply (schedule_pending now s tid tk).
  - exact H4.
  - intros Ht us Hord Hex.
    destruct H1 as [[_ He]|(tid' & tk & Ht' & _)]; [|congruence].
    destruct (burst_runs py us s Hord) as [s1 E].
    destruct (burst_creates_task _ _ _ _ Ht He Hex E) as (d & Ht1 & He1).
    destruct (telemetry_burst _ _ _ _ E) as (Hb & _ & _).
    exists s1, d. split; [done|]. split; [done|]. split; [done|].
    intros tw td Hc Hd Htd. rewrite !run_app, E. simpl.
    unfold step at 1 3. unfold handle. simpl.
    rewrite (proj2 (Qle_bool_iff _ _) Hc). simpl. rewrite Ht1. simpl.
    rewrite decide_True by done. rewrite (proj2 (Qle_bool_iff _ _) Hd).
    destruct (recompute_leaderboard py (driver_states s1)) as [lb|].
    + unfold step, handle. simpl. rewrite (proj2 (Qle_bool_iff _ _) Htd). simpl.
      rewrite decide_True by done. simpl. rewrite decide_True by done.
      eexists. split; [done|].
      unfold finish_task, remove_task, broadcasts. simpl.
      rewrite omap_app. fold (broadcasts s1). rewrite Hb.
      rewrite filter_cons, filter_nil. simpl.
      by rewrite decide_False by (intros ?; done).
    + eexists. split; [done|].
      unfold step, handle, finish_task, remove_task, broadcasts. simpl.
      fold (broadcasts s1).
      rewrite Ht1, filter_cons, filter_nil. simpl.
      rewrite decide_False by (intros ?; done). simpl.
      split; [done|]. split; [done|]. by destruct (Qle_bool tw td).
Qed.

(** *** Concrete runs *)

(** Built-ins that agree with Python on the payloads below: strings print as
    themselves, small integers convert to floats exactly, no string there is
    read as a number, and a whole number of seconds is that many thousand
    milliseconds. *)
Definition plain_builtins : builtins :=
  Builtins (fun _ => None) (fun _ => None)
           (fun n => Some (Fin (inject_Z n)))
           (fun v => match v with VStr s => s | _ => "" end)
           (fun t => Qfloor (t * 1000)).

Definition sample_01 : snapshot :=
  {[ "driver_id" := VStr "car_01"; "completed_laps" := VInt 3; "position" := VInt 2 ]}.
Definition sample_02 : snapshot :=
  {[ "driver_id" := VStr "car_02"; "completed_laps" := VInt 3; "position" := VInt 1 ]}.

(** Two telemetry calls a tenth of a second apart, the first answered at
    once because the last emission is long past, the second one interval
    later. *)
Definition two_notifies : list event :=
  [ Telemetry 100 sample_01 None; Wake 0 100; Delivered 0 100;
    Telemetry (1001 # 10) sample_02 None; Wake 1 (201 # 2); Delivered 1 (201 # 2) ].

(** What a run shows of its broadcasts: the time of each and the number of
    drivers on its leaderboard; and the number of tasks left. *)
Definition summary (s : server) : list (Q * nat) * nat :=
  (map (fun b => (fst b, length (snd b))) (broadcasts s), length (tasks s)).

(** The claim as stated fails: the two notifies are less than one interval
    apart, yet two broadcasts are delivered, at 100 s and at 100.5 s, and the
    first of them shows one driver only, not the state at the second
    notify. *)
Lemma two_notifies_two_broadcasts :
  ((1001 # 10) - 100 < EMIT_INTERVAL_S)%Q /\
  summary <$> run plain_builtins two_notifies init
  = Some ([(100%Q, 1); (201 # 2, 2)], 0).
Proof. split; [reflexivity|]. vm_compute. reflexivity. Qed.

(** Two calls a tenth of a second apart, from the initial state.  The
    first creates the task; while it is outstanding a notify does nothing;
    the task wakes at 101 s and its one broadcast shows both drivers. *)
Lemma debounce_one_task_one_broadcast_witness :
  exists pending s',
    run plain_builtins (telemetry_events [(100%Q, sample_01, None)]) init = Some pending /\
    tasks pending <> [] /\
    schedule_emit_leaderboard (1001 # 10) pending = pending /\
    run plain_builtins
      (telemetry_events [(100%Q, sample_01, None); (1001 # 10, sample_02, None)]
         ++ [Wake 0 101; Delivered 0 101]) init = Some s' /\
    map (fun b => (fst b, length (snd b))) (broadcasts s') = [(101%Q, 2)] /\
    tasks s' = [].
Proof.
  assert (Hr : reachable plain_builtins init) by (exists []; reflexivity).
  assert (Hacc : accepted plain_builtins (100%Q, sample_01, None)) by (by eexists).
  destruct (debounce_one_task_one_broadcast plain_builtins init Hr) as (_ & _ & _ & Hburst).
  destruct (Hburst eq_refl [(100%Q, sample_01, None)]) as (pending & d & E & Ht & _).
  { simpl. split; [|done]. unfold Qle. simpl. lia. }
  { by apply Exists_cons_hd. }
  destruct (Hburst eq_refl [(100%Q, sample_01, None); (1001 # 10, sample_02, None)])
    as (s1 & d1 & E1 & Ht1 & _ & Hwake).
  { simpl. repeat split; unfold Qle; simpl; lia. }
  { by apply Exists_cons_hd. }
  assert (Hp : reachable plain_builtins pending) by (by eexists).
  destruct (debounce_one_task_one_broadcast plain_builtins pending Hp) as (_ & Hnoop & _).
  assert (Hne : tasks pending <> []) by (rewrite Ht; discriminate).
  assert (Hshape : (fun s => (tasks s, clock s,
                              length <$> recompute_leaderboard plain_builtins (driver_states s)))
                   <$> run plain_builtins
                         (telemetry_events [(100%Q, sample_01, None); (1001 # 10, sample_02, None)])
                         init
                   = Some ([(0, Sleeping 100)], 1001 # 10, Some 2)) by (vm_compute; reflexivity).
  rewrite E1 in Hshape. simpl in Hshape. injection Hshape as Hts Hck Hlb.
  rewrite Ht1 in Hts. injection Hts as Hd1.
  specialize (Hwake 101%Q 101%Q).
  destruct (recompute_leaderboard plain_builtins (driver_states s1)) as [lb|];
    [|discriminate Hlb].
  destruct Hwake as (s' & Hrun & Hb & Hts').
  { rewrite Hck. unfold Qle. simpl. lia. }
  { rewrite Hd1. unfold Qle. simpl. lia. }
  { apply Qle_refl. }
  exists pending, s'. split; [exact E|]. split; [exact Hne|].
  split; [exact (Hnoop Hne (1001 # 10))|]. split; [exact Hrun|]. split; [|exact Hts'].
  rewrite Hb. simpl in Hlb. injection Hlb as Hlen. simpl. by rewrite Hlen.
Defined.





End Main.

(** ** Run identifiers: [main._mk_run_id] and [sim_config_api.mk_run_id] *)
Module RunId.

(** A Python string, character by character. *)
Fixpoint string_map (f : ascii -> ascii) (s : string) : string :=
  match s with
  | EmptyString => EmptyString
  | String c s' => String (f c) (string_map f s')
  end.

(** [s[:n]] *)
Fixpoint string_take (n : nat) (s : string) : string :=
  match n, s with
  | S n', String c s' => String c (string_take n' s')
  | _, _ => EmptyString
  end.

Fixpoint string_Forall (P : ascii -> Prop) (s : string) : Prop :=
  match s with
  | EmptyString => True
  | String c s' => P c /\ string_Forall P s'
  end.

(** [if name:] holds for a name that is given and not empty. *)
Definition given (name : option string) : option string :=
  match name with
  | Some EmptyString => None
  | other => other
  end.

Section Sanitize.
(** [str.isalnum] on one character, as Python's Unicode tables have it. *)
Variable isalnum : ascii -> bool.

(** [c if c.isalnum() or c in "-_" else "_"] *)
Definition safe_char (c : ascii) : ascii :=
  if isalnum c || bool_decide (c = "-"%char) || bool_decide (c = "_"%char) then c else "_"%char.

(** The characters a sanitised name is made of. *)
Definition safe (c : ascii) : Prop :=
  isalnum c = true \/ c = "-"%char \/ c = "_"%char.

(** [main._mk_run_id(name)], with [ts] the UTC time formatted
    [%Y%m%dT%H%M%SZ]. *)
Definition _mk_run_id (name : option string) (ts : string) : string :=
  match given name with
  | Some name =>
      let safe := string_take 40 (string_map safe_char name) in
      safe +:+ "_" +:+ ts
  | None => "run_" +:+ ts
  end.

Lemma safe_char_safe c : safe (safe_char c).
Proof.
  unfold safe_char, safe.
  destruct (isalnum c) eqn:Ea; simpl; [by left|].
  destruct (bool_decide (c = "-"%char)) eqn:Eh; simpl.
  - apply bool_decide_eq_true in Eh. by right; left.
  - destruct (bool_decide (c = "_"%char)) eqn:Eu; simpl; [|by right; right].
    apply bool_decide_eq_true in Eu. by right; right.
Qed.

Lemma string_take_map_safe n s : string_Forall safe (string_take n (string_map safe_char s)).
Proof.
  revert n. induction s as [|c s IH]; intros [|n]; simpl; try done.
  split; [apply safe_char_safe | apply IH].
Qed.

Lemma string_take_length n s : String.length (string_take n s) = Nat.min n (String.length s).
Proof. revert n. induction s as [|c s IH]; intros [|n]; simpl; try done. by rewrite IH. Qed.

Lemma string_map_length f s : String.length (string_map f s) = String.length s.
Proof. induction s as [|c s IH]; simpl; [done | by rewrite IH]. Qed.

(** [main._mk_run_id] does what the design says: the name, every character
    outside the safe set replaced, cut to 40 characters, then the timestamp;
    without a name, the timestamp alone. *)
Lemma _mk_run_id_sanitised name ts :
  match given name with
  | Some n =>
      exists prefix,
        _mk_run_id name ts = prefix +:+ "_" +:+ ts /\
        prefix = string_take 40 (string_map safe_char n) /\
        string_Forall safe prefix /\
        String.length prefix = Nat.min 40 (String.length n)
  | None => _mk_run_id name ts = "run_" +:+ ts
  end.
Proof.
  unfold _mk_run_id. destruct (given name) as [n|]; [|done].
  eexists. split; [done|]. split; [done|]. split; [apply string_take_map_safe|].
  by rewrite string_take_length, string_map_length.
Qed.

End Sanitize.

(** [name.replace(" ", "_")] *)
Definition replace_spaces (name : string) : string :=
  string_map (fun c => if bool_decide (c = " "%char) then "_"%char else c) name.

(** [sim_config_api.mk_run_id(name)], with [ts] as above. *)
Definition mk_run_id (name : option string) (ts : string) : string :=
  match given name with
  | Some name => replace_spaces name +:+ "_" +:+ ts
  | None => "run_" +:+ ts
  end.

Lemma append_length a b : String.length (a +:+ b) = String.length a + String.length b.
Proof. induction a as [|c a IH]; simpl; [done | by rewrite IH]. Qed.

(** C8 at the failing input. [sim_config_api.mk_run_id] only replaces
    spaces: path separators and dots go through (where [main._mk_run_id]
    writes underscores, whatever [isalnum] says of letters and digits), and no
    name is cut to 40 characters. *)
Theorem mk_run_id_not_sanitised (ts : string) :
  mk_run_id (Some "../../etc/pit lane") ts = "../../etc/pit_lane_" +:+ ts /\
  (forall isalnum,
     isalnum "."%char = false -> isalnum "/"%char = false ->
     exists rest, _mk_run_id isalnum (Some "../../etc/pit lane") ts
                  = "______" +:+ rest) /\
  (forall name : string,
     name <> ""%string ->
     String.length (mk_run_id (Some name) ts) = String.length name + 1 + String.length ts).
Proof.
  split; [reflexivity|]. split.
  - intros isalnum Hdot Hslash. unfold _mk_run_id, safe_char. simpl.
    rewrite Hdot, Hslash. simpl. by eexists.
  - intros name Hne. unfold mk_run_id. destruct name as [|c name]; [done|].
    unfold given. rewrite !append_length. unfold replace_spaces.
    rewrite string_map_length. simpl. lia.
Qed.

End RunId.

(** ** Paths under the replay directory *)
Module Path.
Import RunId.

Definition REPLAY_DIR : string := "replays".

Definition is_absolute (name : string) : bool :=
  match name with
  | String c _ => Ascii.eqb c "/"
  | EmptyString => false
  end.

(** [os.path.join(dir, name)] on POSIX, for a [dir] that does not end in a
    separator: an absolute [name] stands alone. *)
Definition path_join (dir name : string) : string :=
  if is_absolute name then name else dir +:+ "/" +:+ name.

Lemma append_inj_l a b c : a +:+ b = a +:+ c -> b = c.
Proof. induction a as [|x a IH]; simpl; [done|]. intros [= H]. by apply IH. Qed.


(** Two names under [replays] are the same file only when they are the
    same name. *)
Lemma replay_dir_join_inj a b :
  path_join REPLAY_DIR a = path_join REPLAY_DIR b -> a = b.
Proof.
  unfold path_join.
  destruct (is_absolute a) eqn:Ea, (is_absolute b) eqn:Eb; intros H.
  - exact H.
  - subst a. discriminate Ea.
  - subst b. discriminate Eb.
  - by apply (append_inj_l (REPLAY_DIR +:+ "/")).
Qed.

End Path.

(** ** sim_config_api.py: starting a run *)
Module RunLedger.
Import RunId Path.

Section Ledger.
(** The validated configuration ([SimConfig]) with its optional
    [run_name], and the entries of a replay's sequences. *)
Context {SimConfig Entry : Type} (run_name : SimConfig -> option string).

(** Whether [open(path, "w")] succeeds, which is for the file system to say:
    a run id is the run name with only its spaces replaced, so the path may
    name a directory that does not exist, or be no file name at all. *)
Context (writable : string -> bool).

(** [cfg_dict]: the configuration and its [_meta] record. *)
Record cfg_dict := CfgDict {
  cfg : SimConfig;
  meta_created_at : string;
  meta_run_id : string;
}.

(** The replay record of a run. *)
Record replay := Replay {
  run_id : string;
  config : cfg_dict;
  started_at : string;
  telemetry : list Entry;
  intent_predictions : list Entry;
  events : list Entry;
}.

(** What a file under [replays/] holds. *)
Inductive file :=
  | ConfigFile (c : cfg_dict)
  | ReplayFile (r : replay).

(** The module globals and the [replays/] directory. *)
Record ledger := Ledger {
  current_run_id : option string;
  current_replay : option replay;
  disk : gmap string file;
}.

Definition config_path (id : string) : string :=
  path_join REPLAY_DIR (id +:+ "_config.json").
Definition replay_path (id : string) : string :=
  path_join REPLAY_DIR (id +:+ ".json").

(** [with open(path, "w") as f: json.dump(content, f)]; [None] is the
    [OSError] of [open], raised before anything is written. *)
Definition write_file (path : string) (content : file) (d : gmap string file)
  : option (gmap string file) :=
  if writable path then Some (<[path := content]> d) else None.

(** [save_config_file(run_id, cfg)] *)
Definition save_config_file (id : string) (c : cfg_dict) (d : gmap string file)
  : option (gmap string file) :=
  write_file (config_path id) (ConfigFile c) d.

(** What the endpoint answers: the success body, [HTTPException(409)], or
    the [OSError] that escapes it. *)
Inductive response :=
  | Started (id : string) (path : string)
  | Conflict (active : string)
  | WriteFailed (path : string).

(** [start_simulation(config, force)]; [ts], [created_at] and [started_at]
    are the three readings of the clock, formatted.  The state returned with
    an exception is the state in which it is raised: the configuration is
    saved before the conflict check, and the globals are assigned before the
    skeleton is written. *)
Definition start_simulation (config : SimConfig) (force : bool)
    (ts created_at started : string) (s : ledger) : response * ledger :=
  let id := mk_run_id (run_name config) ts in
  let cfg_dict := CfgDict config created_at id in
  match save_config_file id cfg_dict (disk s) with
  | None => (WriteFailed (config_path id), s)
  | Some disk1 =>
      match given (current_run_id s), force with
      | Some active, false =>
          (Conflict active, Ledger (current_run_id s) (current_replay s) disk1)
      | _, _ =>
          let fresh := Replay id cfg_dict started [] [] [] in
          match write_file (replay_path id) (ReplayFile fresh) disk1 with
          | None => (WriteFailed (replay_path id), Ledger (Some id) (Some fresh) disk1)
          | Some disk2 => (Started id (replay_path id), Ledger (Some id) (Some fresh) disk2)
          end
      end
  end.

Lemma config_path_not_replay id : config_path id <> replay_path id.
Proof.
  unfold config_path, replay_path. intros H.
  apply replay_dir_join_inj, append_inj_l in H. discriminate H.
Qed.

End Ledger.

(** *** A start that is refused *)

(** A configuration reduced to its [run_name]. *)
Definition named : Type := option string.

(** A directory in which every file can be written. *)
Definition any_path (path : string) : bool := true.

(** A first run, "quali", started on an empty ledger. *)
Definition quali_running : ledger (SimConfig := named) (Entry := nat) :=
  snd (start_simulation (fun c : named => c) any_path (Some "quali") false
         "20250101T000000Z" "2025-01-01T00:00:00Z" "2025-01-01T00:00:00Z"
         (Ledger None None ∅)).

Definition quali_id : string := "quali_20250101T000000Z".
Definition race_id : string := "race_20250101T010000Z".

Definition start_race (force : bool) : response * ledger (SimConfig := named) (Entry := nat) :=
  start_simulation (fun c : named => c) any_path (Some "race") force
    "20250101T010000Z" "2025-01-01T01:00:00Z" "2025-01-01T01:00:00Z" quali_running.

(** C4 at the failing input.  With the run "quali" current, a start of
    "race" without the override is refused with the conflict and leaves the
    current run id and the current replay record alone, but the durable
    records have changed: the configuration file of the run that was not
    started is on disk, where there was none.  [save_config_file] is called
    before the check, so this holds of every refused start whose
    configuration file can be written. *)
Theorem start_simulation_saves_config_before_conflict_check :
  (fst (start_race false) = Conflict quali_id /\
   current_run_id (snd (start_race false)) = current_run_id quali_running /\
   current_replay (snd (start_race false)) = current_replay quali_running /\
   disk quali_running !! config_path race_id = None /\
   disk (snd (start_race false)) !! config_path race_id
   = Some (ConfigFile (CfgDict (Some "race") "2025-01-01T01:00:00Z" race_id))) /\
  (forall (SimConfig Entry : Type) (run_name : SimConfig -> option string)
          (writable : string -> bool) (config : SimConfig)
          (ts created_at started active : string)
          (s : ledger (SimConfig := SimConfig) (Entry := Entry)),
     let id := mk_run_id (run_name config) ts in
     given (current_run_id s) = Some active ->
     writable (config_path id) = true ->
     start_simulation run_name writable config false ts created_at started s
     = (Conflict active,
        Ledger (current_run_id s) (current_replay s)
               (<[config_path id := ConfigFile (CfgDict config created_at id)]> (disk s)))).
Proof.
  split.
  - repeat split; vm_compute; reflexivity.
  - intros SimConfig Entry run_name writable config ts created_at started active s id Ha Hw.
    unfold start_simulation, save_config_file, write_file. fold id.
    by rewrite Hw, Ha.
Qed.

End RunLedger.

(** ** More on [IntentPredictor.predict] *)
Module IntentFacts.
Import PyDict Intent.
Local Open Scope float_scope.

(** The label and the confidence that the tail of [predict] returns, for
    each outcome of the seven tests: the label is one of the four, the
    confidence lies in [0.25, 1), and a label other than push is returned
    only when one of its own rules fired. *)
Lemma classify_label (b1 b2 b3 b4 b5 b6 b7 : bool) :
  exists l probs c,
    classify (score_rules b1 b2 b3 b4 b5 b6 b7) = Some (l, probs, c) /\
    l ∈ INTENTS /\
    (0.25 <=? c) = true /\ (c <? 1) = true /\
    (l = "prepare_pit"%string -> b3 || b4 = true) /\
    (l = "conserve"%string -> b5 || b6 = true) /\
    (l = "bluff"%string -> b7 = true).
Proof.
  destruct b1, b2, b3, b4, b5, b6, b7;
    (eexists _, _, _; split; [vm_compute; reflexivity|];
     split; [unfold INTENTS; set_solver|];
     split; [reflexivity|]; split; [reflexivity|];
     repeat split; intros H; first [reflexivity | discriminate H]).
Qed.

(** Whatever the features, the predicted label is one of the four intents
    and the confidence is at least 1/4 and below 1: the smoothing constant
    keeps every label's probability positive, so no prediction is certain. *)
Theorem predict_confidence_bounds (f : features) :
  exists l probs c,
    predict f = Some (l, probs, c) /\
    l ∈ INTENTS /\ (0.25 <=? c) = true /\ (c <? 1) = true.
Proof.
  unfold predict. destruct (decide (size f = 0%nat)) as [_|_].
  - eexists _, _, _. split; [vm_compute; reflexivity|].
    split; [unfold INTENTS; set_solver|]. split; reflexivity.
  - destruct (classify_label (rule_push_fast f) (rule_push_var f) (rule_pit_hot f)
                (rule_pit_brake f) (rule_conserve_slow f) (rule_conserve_flat f) (rule_bluff f))
      as (l & probs & c & Hr & Hl & H1 & H2 & _).
    by exists l, probs, c.
Qed.

(** On a non-empty mapping a label other than push is predicted only when a
    rule of that label fired: bluff needs the bluff rule, prepare_pit one of
    the two pit rules, conserve one of the two conserve rules.  (On the empty
    mapping the label is conserve with no rule at all.) *)
Theorem predict_label_needs_rule (f : features) (l : string) probs c :
  f <> ∅ ->
  predict f = Some (l, probs, c) ->
  (l = "bluff"%string -> rule_bluff f = true) /\
  (l = "prepare_pit"%string -> rule_pit_hot f = true \/ rule_pit_brake f = true) /\
  (l = "conserve"%string -> rule_conserve_slow f = true \/ rule_conserve_flat f = true).
Proof.
  intros Hne. unfold predict.
  destruct (decide (size f = 0%nat)) as [H0|_];
    [exfalso; by apply Hne, map_size_empty_inv|].
  destruct (classify_label (rule_push_fast f) (rule_push_var f) (rule_pit_hot f)
              (rule_pit_brake f) (rule_conserve_slow f) (rule_conserve_flat f) (rule_bluff f))
    as (l' & probs' & c' & Hr & _ & _ & _ & Hp & Hc & Hb).
  unfold score. rewrite Hr. intros [= <- <- <-].
  split; [exact Hb|]. split.
  - intros H. apply Hp in H. apply orb_true_iff in H. exact H.
  - intros H. apply Hc in H. apply orb_true_iff in H. exact H.
Qed.

(** Hard braking on hot tyres: the pit rule fires and the label is
    prepare_pit. *)
Lemma predict_label_needs_rule_witness :
  rule_pit_hot {[ "speed_mean"%string := 30; "tyre_temp_mean"%string := 95;
                  "brake_mean"%string := 15; "lapprog_slope"%string := 0.5 ]} = true \/
  rule_pit_brake {[ "speed_mean"%string := 30; "tyre_temp_mean"%string := 95;
                    "brake_mean"%string := 15; "lapprog_slope"%string := 0.5 ]} = true.
Proof.
  refine (proj1 (proj2 (predict_label_needs_rule
            {[ "speed_mean"%string := 30; "tyre_temp_mean"%string := 95;
               "brake_mean"%string := 15; "lapprog_slope"%string := 0.5 ]}
            "prepare_pit"%string _ _ _ _)) eq_refl).
  - intros H. apply (f_equal (fun m : features => m !! "speed_mean"%string)) in H.
    vm_compute in H. discriminate H.
  - vm_compute. reflexivity.
Defined.

End IntentFacts.

(** ** feature_extractor.py and telemetry_schema.py: from packets to features *)
Module Features.
Import PyDict Window Intent.
Local Open Scope float_scope.

(** [TelemetryPacket], as [ingest_telemetry] hands it on after validation:
    every field is present, the optional ones may be [None]. *)
Record TelemetryPacket := {
  driver_id : string;
  timestamp_ms : Z;
  lap : Z;
  lap_progress : float;
  speed_mps : float;
  position_x : float;
  position_y : float;
  yaw : float;
  sector : option Z;
  throttle_pct : option float;
  brake_pct : option float;
  tyre_temp : option float;
  battery_pct : option float;
}.

(** The conversion of a small [int] to a float. *)
Definition float_of_nat (n : nat) : float :=
  PrimFloat.of_uint63 (Uint63.of_Z (Z.of_nat n)).

Section Extractor.
(** [numpy]'s mean and standard deviation of one column. *)
Variables np_mean np_std : list float -> float.

(** One row of [arr]: the five channels of a packet.  A [None] among them
    makes the array one of objects, on which [arr.mean] raises. *)
Definition row (p : TelemetryPacket) : option (list float) :=
  throttle ← throttle_pct p;
  brake ← brake_pct p;
  tyre ← tyre_temp p;
  Some [speed_mps p; throttle; brake; tyre; lap_progress p].

Definition column (i : nat) (arr : list (list float)) : list float :=
  map (fun r => nth i r 0) arr.

(** [DriverWindow.to_features]; [None] stands for the exception. *)
Definition to_features (w : DriverWindow (pkt := TelemetryPacket)) : option features :=
  arr ← mapM row (samples w);
  match arr with
  | [] => Some ∅
  | _ =>
      let means := map (fun i => np_mean (column i arr)) [0; 1; 2; 3; 4]%nat in
      let stds := map (fun i => np_std (column i arr)) [0; 1; 2; 3; 4]%nat in
      let delta_speed := List.last (column 0 arr) 0 - nth 0 means 0 in
      let lap_progress := column 4 arr in
      let prog_slope :=
        if decide (2 <= length lap_progress)%nat
        then (List.last lap_progress 0 - hd 0 lap_progress)
             / float_of_nat (Nat.max (length lap_progress - 1) 1)
        else 0 in
      Some (<["speed_mean" := nth 0 means 0]>
            (<["speed_std" := nth 0 stds 0]>
            (<["delta_speed" := delta_speed]>
            (<["throttle_mean" := nth 1 means 0]>
            (<["brake_mean" := nth 2 means 0]>
            (<["tyre_temp_mean" := nth 3 means 0]>
            (<["lapprog_slope" := prog_slope]>
            (<["samples" := float_of_nat (length (samples w))]> ∅))))))))
  end.

(** [class FeatureExtractor]: [self.windows], a [defaultdict(DriverWindow)]. *)
Record FeatureExtractor := { windows : gmap string (DriverWindow (pkt := TelemetryPacket)) }.

Definition new_extractor : FeatureExtractor := {| windows := ∅ |}.

(** [self.windows[did]]: the driver's window, a new default one when the
    driver has none. *)
Definition window_of (did : string) (fe : FeatureExtractor) : DriverWindow :=
  default default_window (windows fe !! did).

(** [FeatureExtractor.push(telemetry)] *)
Definition fe_push (fe : FeatureExtractor) (telemetry : TelemetryPacket) : FeatureExtractor :=
  let did := driver_id telemetry in
  {| windows := <[did := push telemetry (window_of did fe)]> (windows fe) |}.

Definition fe_push_all (ps : list TelemetryPacket) (fe : FeatureExtractor) : FeatureExtractor :=
  fold_left fe_push ps fe.

(** [FeatureExtractor.get_features(driver_id, min_samples)] *)
Definition get_features (did : string) (min_samples : nat) (fe : FeatureExtractor)
  : option features :=
  match windows fe !! did with
  | None => Some ∅
  | Some w => if is_ready min_samples w then to_features w else Some ∅
  end.

(** The packets of one driver, in arrival order. *)
Definition packets_of (did : string) (ps : list TelemetryPacket) : list TelemetryPacket :=
  filter (fun p => driver_id p = did) ps.

Lemma fe_push_window did fe p :
  window_of did (fe_push fe p) =
  if decide (driver_id p = did) then push p (window_of did fe) else window_of did fe.
Proof.
  unfold fe_push, window_of at 1. simpl.
  destruct (decide (driver_id p = did)) as [->|Hne].
  - by rewrite lookup_insert_eq.
  - by rewrite lookup_insert_ne.
Qed.

Lemma fe_push_all_window did ps fe :
  window_of did (fe_push_all ps fe) = push_all (packets_of did ps) (window_of did fe).
Proof.
  revert fe. induction ps as [|p ps IH]; intros fe; simpl; [done|].
  rewrite IH, fe_push_window. unfold packets_of. rewrite filter_cons.
  by destruct (decide (driver_id p = did)).
Qed.

Lemma fe_push_all_known did ps fe :
  windows fe !! did = None ->
  (windows (fe_push_all ps fe) !! did = None <-> packets_of did ps = []).
Proof.
  revert fe. induction ps as [|p ps IH]; intros fe Hnone; simpl; [done|].
  unfold packets_of. rewrite filter_cons.
  destruct (decide (driver_id p = did)) as [Heq|Hne].
  - split; [|done]. intros H. exfalso.
    assert (Hin : is_Some (windows (fe_push fe p) !! did)).
    { unfold fe_push. simpl. rewrite Heq, lookup_insert_eq. by eexists. }
    clear IH Hnone. revert Hin H. generalize (fe_push fe p). clear fe.
    induction ps as [|q ps IH]; intros fe [w Hw] H; simpl in *; [congruence|].
    apply (IH (fe_push fe q)); [|done].
    unfold fe_push. simpl. destruct (decide (driver_id q = did)) as [->|Hne].
    + rewrite lookup_insert_eq. by eexists.
    + rewrite lookup_insert_ne by done. by eexists.
  - apply IH. unfold fe_push. simpl. by rewrite lookup_insert_ne.
Qed.

Lemma fe_window_samples (ps : list TelemetryPacket) (did : string) :
  samples (window_of did (fe_push_all ps new_extractor))
  = drop (length (packets_of did ps) - 40) (packets_of did ps).
Proof.
  rewrite fe_push_all_window.
  assert (H : window_of did new_extractor = default_window) by done.
  rewrite H. rewrite (push_all_samples 40) by (simpl; first [done | lia]).
  done.
Qed.

(** Each driver has a window of its own: a packet changes the window of its
    driver only, and after any packets the window of a driver holds the last
    40 of that driver's packets, in arrival order, whatever the other
    drivers sent. *)
Theorem extractor_windows_per_driver (ps : list TelemetryPacket) (did : string) :
  samples (window_of did (fe_push_all ps new_extractor))
  = drop (length (packets_of did ps) - 40) (packets_of did ps) /\
  length (samples (window_of did (fe_push_all ps new_extractor)))
  = Nat.min (length (packets_of did ps)) 40 /\
  forall fe p, driver_id p <> did -> window_of did (fe_push fe p) = window_of did fe.
Proof.
  split; [apply fe_window_samples|]. split.
  - rewrite fe_window_samples, length_drop. lia.
  - intros fe p Hne. rewrite fe_push_window. by rewrite decide_False.
Qed.

Lemma to_features_not_empty w f :
  samples w <> [] -> to_features w = Some f ->
  f !! "samples" = Some (float_of_nat (length (samples w))).
Proof.
  intros Hne. unfold to_features.
  destruct (mapM row (samples w)) as [arr|] eqn:E; [|done]. simpl.
  destruct arr as [|r arr].
  { apply mapM_Some in E. apply Forall2_length in E.
    destruct (samples w); [done | discriminate E]. }
  intros [= <-]. by repeat (rewrite lookup_insert_ne by done); rewrite lookup_insert_eq.
Qed.

(** Cold start. A driver has no features before [min_samples] of its own
    packets have arrived: [get_features] answers the empty mapping without
    raising, on which [predict] answers conserve with the uniform
    distribution; from then on (the window holding at most 40, a larger
    [min_samples] is never reached) it answers [to_features] of the window,
    a mapping that is never empty. *)
Theorem get_features_cold_start (ps : list TelemetryPacket) (did : string) (min_samples : nat) :
  let fe := fe_push_all ps new_extractor in
  let n := length (packets_of did ps) in
  (Nat.min n 40 < min_samples ->
     get_features did min_samples fe = Some ∅ /\
     get_features did min_samples fe ≫= predict = Some ("conserve"%string, uniform, 0.25)) /\
  (min_samples <= Nat.min n 40 -> 0 < n ->
     get_features did min_samples fe = to_features (window_of did fe) /\
     forall f, get_features did min_samples fe = Some f ->
               f !! "samples" = Some (float_of_nat (Nat.min n 40))).
Proof.
  intros fe n.
  assert (Hs : samples (window_of did fe) = drop (n - 40) (packets_of did ps))
    by apply fe_window_samples.
  assert (Hl : length (samples (window_of did fe)) = Nat.min n 40).
  { rewrite Hs, length_drop. unfold n. lia. }
  pose proof (fe_push_all_known did ps new_extractor (lookup_empty _)) as Hk.
  fold fe in Hk. unfold get_features, window_of in *.
  destruct (windows fe !! did) as [w|] eqn:Ew; simpl in *.
  - unfold is_ready. fold (samples w). rewrite Hl. split.
    + intros Hlt. rewrite bool_decide_eq_false_2 by lia. split; [done|].
      vm_compute. reflexivity.
    + intros Hge Hpos. rewrite bool_decide_eq_true_2 by lia. split; [done|].
      intros f Hf. rewrite <- Hl. apply to_features_not_empty; [|done].
      intros Hnil. rewrite Hnil in Hl. simpl in Hl. lia.
  - split; [intros _; split; [done | vm_compute; reflexivity]|]. intros _ Hpos. exfalso.
    assert (packets_of did ps = []) as Hnil by (by apply Hk).
    unfold n in Hpos. rewrite Hnil in Hpos. simpl in Hpos. lia.
Qed.

End Extractor.

(** A packet of car_07 at rest. *)
Definition parked (t : Z) : TelemetryPacket :=
  {| driver_id := "car_07"; timestamp_ms := t; lap := 0; lap_progress := 0; speed_mps := 0;
     position_x := 0; position_y := 0; yaw := 0; sector := None;
     throttle_pct := Some 0; brake_pct := Some 0; tyre_temp := Some 0; battery_pct := None |}.

(** After three packets car_07 has no features yet, whatever [numpy]
    computes. *)
Lemma get_features_cold_start_witness :
  get_features (fun _ => 0) (fun _ => 0) "car_07" 5
    (fe_push_all [parked 0; parked 100; parked 200] new_extractor) = Some ∅.
Proof.
  refine (proj1 (proj1 (get_features_cold_start (fun _ => 0) (fun _ => 0)
            [parked 0; parked 100; parked 200] "car_07" 5) _)).
  vm_compute. lia.
Defined.

End Features.

(** ** More on the subscriber registry of intent_service.py *)
Module RegistryFacts.
Import Registry.

Section Facts.
Context {msg : Type}.

(** [broadcast_json] in closed form. *)
Lemma broadcast_json_result (m : msg) (clients : gset handle) (n : net) :
  broadcast_json m clients n =
  Some (clients ∖ broken n,
        Net (broken n)
            (inbox n ++ map (fun ws => (ws, m)) (filter (fun ws => ws ∉ broken n) (elements clients)))
            (attempts n ++ elements clients)).
Proof.
  unfold broadcast_json.
  pose proof (deliver_spec (elements clients) m [] n) as H.
  destruct (deliver (elements clients) m [] n) as [to_remove n'].
  destruct H as (Htr & Hb & Ha & Hi). simpl in Htr. subst to_remove.
  rewrite remove_all_spec.
  - destruct n' as [b i a]. simpl in *. subst. do 2 f_equal.
    apply set_eq. intros ws. rewrite !elem_of_difference, elem_of_list_to_set.
    rewrite list_elem_of_filter, elem_of_elements. tauto.
  - apply NoDup_filter, NoDup_elements.
  - intros r Hr. apply list_elem_of_filter in Hr as [_ Hr]. by apply elem_of_elements.
Qed.

(** A viewer that connected and disconnected again before a broadcast is
    not tried by it and is not in the registry afterwards, while every other
    registered viewer with a working connection receives the message. *)
Theorem broadcast_after_disconnect (ws : handle) (m : msg) (clients : gset handle) (n : net) :
  exists clients' n',
    broadcast_json m (discard ws (add ws clients)) n = Some (clients', n') /\
    (ws ∉ clients') /\
    (ws ∉ drop (length (attempts n)) (attempts n')) /\
    (forall other, other ∈ clients -> other <> ws -> other ∉ broken n ->
       other ∈ clients' /\ (other, m) ∈ inbox n').
Proof.
  rewrite broadcast_json_result. eexists _, _. split; [reflexivity|]. simpl.
  assert (Hd : discard ws (add ws clients) = clients ∖ {[ws]}).
  { unfold discard, add. rewrite decide_True by set_solver. set_solver. }
  rewrite Hd. split; [set_solver|]. split.
  - rewrite drop_app_length. rewrite elem_of_elements. set_solver.
  - intros other Hin Hne Hok. split; [set_solver|].
    apply elem_of_app. right. apply (list_elem_of_fmap_2 (fun ws => (ws, m))).
    apply list_elem_of_filter. split; [done|]. apply elem_of_elements. set_solver.
Qed.

(** Pruning settles after one pass: when no further connection breaks, the
    broadcast that follows one broadcast tries exactly the handles the first
    one kept, removes none of them and delivers to every one. *)
Theorem second_broadcast_removes_nobody (m m' : msg) (clients clients1 : gset handle) (n n1 : net) :
  broadcast_json m clients n = Some (clients1, n1) ->
  exists n2,
    broadcast_json m' clients1 n1 = Some (clients1, n2) /\
    attempts n2 = attempts n1 ++ elements clients1 /\
    (forall ws, ws ∈ clients1 -> (ws, m') ∈ inbox n2).
Proof.
  rewrite broadcast_json_result. intros [= <- <-].
  rewrite broadcast_json_result. simpl. eexists. split.
  - f_equal. f_equal. set_solver.
  - simpl. split; [done|]. intros ws Hws.
    apply elem_of_app. right. apply (list_elem_of_fmap_2 (fun ws => (ws, m'))).
    apply list_elem_of_filter. split; [set_solver | by apply elem_of_elements].
Qed.

End Facts.

(** Viewers 1, 2 and 3, the connection of 2 broken: the first broadcast
    drops 2, the second keeps 1 and 3. *)
Definition three_viewers : gset handle := {[1; 2; 3]}.
Definition line_2_down : net (msg := nat) := Net {[2]} [] [].

Lemma second_broadcast_removes_nobody_witness :
  exists clients1 n1 n2,
    broadcast_json 7 three_viewers line_2_down = Some (clients1, n1) /\
    broadcast_json 8 clients1 n1 = Some (clients1, n2).
Proof.
  destruct (broadcast_json 7 three_viewers line_2_down) as [[clients1 n1]|] eqn:E.
  - destruct (second_broadcast_removes_nobody 7 8 _ _ _ _ E) as (n2 & H & _).
    by exists clients1, n1, n2.
  - vm_compute in E. discriminate E.
Defined.

End RegistryFacts.

(** ** More on main.py: the store, the endpoints, the scheduler *)
Module MainFacts.
Import PyDict Main.

(** [GET /drivers/{driver_id}]: the stored state, or [None] for the 404 that
    an unknown driver and an empty state both get. *)
Definition get_driver (driver_id : string) (s : server) : option snapshot :=
  match dict_get driver_id (driver_states s) with
  | Some d => if decide (size d = 0) then None else Some d
  | None => None
  end.

(** [leaderboard:reset] and [POST /leaderboard/reset] at time [t]: the store
    is cleared and an empty leaderboard is emitted to everyone at once. *)
Definition leaderboard_reset (t : Q) (s : server) : server :=
  Server [] (last_emit_ts s) (emit_task s) (current_replay s)
         (tasks s) (next_task_id s) (clock s)
         (outbox s ++ [LeaderboardUpdate t []]).

(** The drivers some payload of [us] is about. *)
Definition reported (py : builtins) (us : list update) (driver : string) : Prop :=
  exists u, u ∈ us /\ driver_of py (snd (fst u)) = Some driver.

(** Every stored state carries the server's timestamp and the id it is
    stored under. *)
Definition well_kept (py : builtins) (store : list (string * snapshot)) : Prop :=
  Forall (fun e => is_Some (snd e !! "last_update_ts") /\
                   str py <$> snd e !! "driver_id" = Some (fst e)) store.

Lemma dict_get_None_keys {V} (k : string) (d : list (string * V)) :
  dict_get k d = None <-> k ∉ dict_keys d.
Proof.
  induction d as [|[k' v] d IH]; simpl; [set_solver|].
  destruct (decide (k = k')) as [->|Hne]; [set_solver|].
  rewrite IH. unfold dict_keys. set_solver.
Qed.

Lemma dict_get_Some_elem {V} (k : string) (v : V) (d : list (string * V)) :
  dict_get k d = Some v -> (k, v) ∈ d.
Proof.
  induction d as [|[k' v'] d IH]; simpl; [done|].
  destruct (decide (k = k')) as [->|Hne]; [intros [= ->]; left | intros H; right; by apply IH].
Qed.

Lemma dict_set_keys {V} (k : string) (v : V) (d : list (string * V)) :
  dict_keys (dict_set k v d) = dict_keys d ++ (if decide (k ∈ dict_keys d) then [] else [k]).
Proof.
  unfold dict_keys. induction d as [|[k' v'] d IH]; simpl.
  - done.
  - destruct (decide (k = k')) as [->|Hne]; simpl.
    + rewrite decide_True by set_solver. by rewrite app_nil_r.
    + rewrite IH. f_equal. repeat case_decide; set_solver.
Qed.

Lemma dict_set_Forall {V} (P : string * V -> Prop) (k : string) (v : V) (d : list (string * V)) :
  P (k, v) -> Forall P d -> Forall P (dict_set k v d).
Proof.
  intros Hk. induction 1 as [|[k' v'] d Hx Hd IH]; simpl; [by repeat constructor|].
  destruct (decide (k = k')); by constructor.
Qed.

Lemma ingest_keys py s u :
  dict_keys (driver_states (ingest py s u)) =
  dict_keys (driver_states s) ++
    match driver_of py (snd (fst u)) with
    | Some driver => if decide (driver ∈ dict_keys (driver_states s)) then [] else [driver]
    | None => []
    end.
Proof.
  destruct u as [[now payload] sid]. unfold ingest, driver_of. simpl.
  destruct (process_telemetry_update py now payload sid s) as [s'|] eqn:E; simpl.
  - destruct (process_driver_states _ _ _ _ _ _ E) as (id & Hid & Hs).
    by rewrite Hs, Hid, dict_set_keys.
  - unfold process_telemetry_update in E.
    destruct (payload !! "driver_id"); [done|]. simpl. by rewrite app_nil_r.
Qed.

Lemma ingest_well_kept py s u :
  well_kept py (driver_states s) -> well_kept py (driver_states (ingest py s u)).
Proof.
  intros Hw. destruct u as [[now payload] sid]. unfold ingest.
  destruct (process_telemetry_update py now payload sid s) as [s'|] eqn:E; simpl; [|done].
  destruct (process_driver_states _ _ _ _ _ _ E) as (id & Hid & Hs).
  rewrite Hs. apply dict_set_Forall; [|done]. simpl. split.
  - rewrite lookup_insert_eq. by eexists.
  - rewrite lookup_insert_ne by done. rewrite lookup_union, Hid.
    by destruct (snapshot_of (str py id) s !! "driver_id").
Qed.

Lemma ingest_all_keys (py : builtins) (us : list update) (s : server) :
  dict_keys (driver_states s) `prefix_of` dict_keys (driver_states (ingest_all py us s)) /\
  (NoDup (dict_keys (driver_states s)) ->
   NoDup (dict_keys (driver_states (ingest_all py us s)))) /\
  (forall driver,
     driver ∈ dict_keys (driver_states (ingest_all py us s)) <->
     driver ∈ dict_keys (driver_states s) \/ reported py us driver).
Proof.
  revert s. induction us as [|u us IH]; intros s; simpl.
  - split; [done|]. split; [done|]. intros driver. split; [by left|].
    intros [H|(u & Hu & _)]; [done | by apply elem_of_nil in Hu].
  - destruct (IH (ingest py s u)) as (Hp & Hn & Hm).
    pose proof (ingest_keys py s u) as Hk.
    split; [|split].
    + etransitivity; [|exact Hp]. rewrite Hk. by apply prefix_app_r.
    + intros Hnd. apply Hn. rewrite Hk.
      destruct (driver_of py (snd (fst u))) as [d|]; [|by rewrite app_nil_r].
      destruct (decide (d ∈ dict_keys (driver_states s))); [by rewrite app_nil_r|].
      apply NoDup_app. split; [done|]. split; [|apply NoDup_singleton].
      intros x Hx Hx'. apply list_elem_of_singleton in Hx'. by subst.
    + intros driver. rewrite Hm, Hk. unfold reported. split.
      * intros [H|(u' & Hu' & Hd)].
        -- apply elem_of_app in H as [H|H]; [by left|]. right. exists u. split; [left|].
           destruct (driver_of py (snd (fst u))) as [d|]; [|by apply elem_of_nil in H].
           destruct (decide (d ∈ dict_keys (driver_states s))); [by apply elem_of_nil in H|].
           apply list_elem_of_singleton in H. by subst.
        -- right. exists u'. split; [by right | done].
      * intros [H|(u' & Hu' & Hd)].
        -- left. apply elem_of_app. by left.
        -- apply elem_of_cons in Hu' as [->|Hu'].
           ++ left. rewrite Hd. apply elem_of_app.
              destruct (decide (driver ∈ dict_keys (driver_states s))); [by left|].
              right. by apply list_elem_of_singleton.
           ++ right. by exists u'.
Qed.

(** Drivers stay in the store in the order in which they first reported:
    telemetry only ever adds a driver, at the end, and never removes or
    moves one. *)
Theorem store_keeps_arrival_order (py : builtins) (us : list update) (s : server) :
  dict_keys (driver_states s) `prefix_of` dict_keys (driver_states (ingest_all py us s)) /\
  (NoDup (dict_keys (driver_states s)) ->
   NoDup (dict_keys (driver_states (ingest_all py us s)))) /\
  (forall driver,
     driver ∈ dict_keys (driver_states (ingest_all py us s)) <->
     driver ∈ dict_keys (driver_states s) \/ reported py us driver).
Proof. apply ingest_all_keys. Qed.

(** Two cars report in turn, car_02 first: the order of the store is the
    order of first arrival. *)
Lemma store_keeps_arrival_order_witness :
  NoDup (dict_keys (driver_states
    (ingest_all plain_builtins
       [(1%Q, sample_02, None); (2%Q, sample_01, None); (3%Q, sample_02, None)] init))).
Proof.
  apply (proj1 (proj2 (store_keeps_arrival_order plain_builtins
    [(1%Q, sample_02, None); (2%Q, sample_01, None); (3%Q, sample_02, None)] init))).
  apply NoDup_nil_2.
Defined.

(** A driver that has reported is found under its id with its merged state,
    which is never empty; a driver that never reported is not found.  Here the
    store is the one reached from the empty one by any telemetry. *)
Theorem get_driver_finds_reported (py : builtins) (us : list update) (driver : string) :
  let s := ingest_all py us init in
  (get_driver driver s = None <-> ~ reported py us driver) /\
  (forall d, get_driver driver s = Some d ->
     dict_get driver (driver_states s) = Some d /\
     is_Some (d !! "last_update_ts") /\
     str py <$> d !! "driver_id" = Some driver).
Proof.
  intros s.
  assert (Hw : well_kept py (driver_states s)).
  { unfold s. assert (H0 : well_kept py (driver_states init)) by constructor.
    revert H0. generalize init. induction us as [|u us IH]; intros s0 H0; simpl; [done|].
    apply IH. by apply ingest_well_kept. }
  destruct (proj2 (proj2 (ingest_all_keys py us init)) driver) as [Hm1 Hm2].
  fold s in Hm1, Hm2. unfold get_driver.
  destruct (dict_get driver (driver_states s)) as [d|] eqn:E.
  - pose proof (proj1 (Forall_forall _ _) Hw _ (dict_get_Some_elem _ _ _ E)) as [Hts Hid].
    simpl in Hts, Hid.
    assert (Hsz : size d <> 0).
    { destruct Hts as [v Hv]. intros H0. apply map_size_empty_inv in H0. by rewrite H0 in Hv. }
    rewrite decide_False by done. split.
    + split; [done|]. intros Hno. exfalso. apply Hno.
      assert (driver ∈ dict_keys (driver_states s)) as Hin.
      { destruct (decide (driver ∈ dict_keys (driver_states s))) as [|Hn]; [done|].
        apply dict_get_None_keys in Hn. congruence. }
      destruct (Hm1 Hin) as [H|H]; [by apply elem_of_nil in H | done].
    + by intros d' [= <-].
  - split; [|done]. split; [|done]. intros _ Hr.
    apply dict_get_None_keys in E. apply E, Hm2. by right.
Qed.

(** *** When the leaderboard cannot be computed *)

Lemma decorate_None py drivers :
  decorate py drivers = None <-> Exists (fun d => sort_key py d = None) drivers.
Proof.
  unfold decorate. induction drivers as [|d ds IH]; simpl.
  - split; [done | intros H; inversion H].
  - rewrite Exists_cons. destruct (sort_key py d) as [k|]; simpl.
    + destruct (mapM _ ds) as [ks|] eqn:E; simpl.
      * split; [done|]. intros [H|H]; [done | by apply IH in H].
      * split; [|done]. intros _. right. by apply IH.
    + split; [by left | done].
Qed.

(** [recompute_leaderboard] raises exactly when the ranking fields of some
    stored driver do not convert to numbers; so one accepted payload with a
    null position makes every leaderboard request fail, for all drivers. *)
Theorem recompute_raises_iff (py : builtins) :
  (forall store,
     recompute_leaderboard py store = None <->
     Exists (fun d => sort_key py d = None) (dict_values store)) /\
  (forall now payload sid s s',
     process_telemetry_update py now payload sid s = Some s' ->
     payload !! "position" = Some VNull ->
     recompute_leaderboard py (driver_states s') = None).
Proof.
  assert (H1 : forall store,
     recompute_leaderboard py store = None <->
     Exists (fun d => sort_key py d = None) (dict_values store)).
  { intros store. rewrite <- decorate_None. unfold recompute_leaderboard, sort_by_key.
    destruct (decorate py (dict_values store)); simpl; split; done. }
  split; [exact H1|].
  intros now payload sid s s' Hp Hpos. apply H1.
  destruct (process_driver_states _ _ _ _ _ _ Hp) as (id & Hid & Hs).
  apply Exists_exists.
  exists (<["last_update_ts" := VFloat (Fin now)]> (payload ∪ snapshot_of (str py id) s)).
  split.
  - rewrite Hs. unfold dict_values. apply list_elem_of_In.
    apply (in_map snd _ (str py id, _)). apply list_elem_of_In.
    apply dict_get_Some_elem, dict_get_set_eq.
  - unfold sort_key.
    assert (Hl : (<["last_update_ts" := VFloat (Fin now)]> (payload ∪ snapshot_of (str py id) s))
                   !! "position" = Some VNull).
    { rewrite lookup_insert_ne by done. rewrite lookup_union, Hpos. apply union_Some_l. }
    rewrite Hl. simpl. by destruct (py_int py _).
Qed.

(** car_01 reports a null position. *)
Lemma recompute_raises_iff_witness :
  recompute_leaderboard plain_builtins
    (driver_states (ingest plain_builtins init
       (1%Q, ({[ "driver_id" := VStr "car_01"; "position" := VNull ]} : snapshot), None)))
  = None.
Proof.
  apply (proj2 (recompute_raises_iff plain_builtins) 1%Q
           ({[ "driver_id" := VStr "car_01"; "position" := VNull ]} : snapshot) None init);
    reflexivity.
Defined.

(** *** When the deferred emit is due *)

(** A notify in the idle state creates the one task; it is due at once when
    the last emission is at least one interval past, and otherwise exactly
    one interval after the last emission. *)
Theorem notify_deadline (py : builtins) (s : server) (now : Q) :
  reachable py s -> tasks s = [] ->
  exists deadline,
    tasks (schedule_emit_leaderboard now s) = [(next_task_id s, Sleeping deadline)] /\
    emit_task (schedule_emit_leaderboard now s) = Some (next_task_id s) /\
    (last_emit_ts s + EMIT_INTERVAL_S <= now -> deadline == now)%Q /\
    (now < last_emit_ts s + EMIT_INTERVAL_S -> deadline == last_emit_ts s + EMIT_INTERVAL_S)%Q.
Proof.
  intros Hr Ht. destruct (reachable_inv _ _ Hr) as ([[_ He]|(tid & tk & Ht' & _)] & _);
    [|congruence].
  rewrite schedule_idle by done. unfold create_emit_task. simpl. rewrite Ht. simpl.
  eexists. split; [done|]. split; [done|].
  unfold py_max. destruct (Qle_bool _ 0) eqn:E.
  - apply Qle_bool_iff in E. split; intros H; lra.
  - assert (~ (EMIT_INTERVAL_S - (now - last_emit_ts s) <= 0)%Q)
      by (rewrite <- Qle_bool_iff; congruence).
    split; intros H'; lra.
Qed.

(** The first notify ever, at 100 s: the task is due at once. *)
Lemma notify_deadline_witness :
  exists deadline,
    tasks (schedule_emit_leaderboard 100 init) = [(0, Sleeping deadline)] /\
    (deadline == 100)%Q.
Proof.
  destruct (notify_deadline plain_builtins init 100) as (d & H1 & _ & H3 & _).
  - exists []. reflexivity.
  - reflexivity.
  - exists d. split; [exact H1|]. apply H3. unfold Qle. simpl. lia.
Defined.

(** *** The replay's telemetry sequence *)

(** The entry an accepted payload leaves in the replay. *)
Definition entries_of (py : builtins) (u : update) : list replay_entry :=
  match driver_of py (snd (fst u)) with
  | Some driver => [ReplayEntry (millis py (fst (fst u))) driver (snd (fst u))]
  | None => []
  end.

Lemma schedule_current_replay now s :
  current_replay (schedule_emit_leaderboard now s) = current_replay s.
Proof.
  unfold schedule_emit_leaderboard.
  destruct (emit_task s) as [tid|]; [destruct (task_done tid s)|]; done.
Qed.

Lemma ingest_current_replay py s u :
  current_replay (ingest py s u) = (fun es => es ++ entries_of py u) <$> current_replay s.
Proof.
  destruct u as [[now payload] sid]. unfold ingest, entries_of, driver_of,
    process_telemetry_update. simpl.
  destruct (payload !! "driver_id") as [id|]; simpl.
  - rewrite schedule_current_replay. simpl. by destruct (current_replay s).
  - destruct (current_replay s); simpl; [by rewrite app_nil_r | done].
Qed.

(** While a run is current, its telemetry sequence only grows: every
    accepted payload leaves one entry at the end, with its driver, the
    payload and the millisecond stamp [int(time.time() * 1000)] gives for
    the time of the call (the binary64 product, truncated: [millis]), in
    arrival order; a rejected payload leaves none; nothing is reordered or
    dropped.  Without a run nothing is recorded. *)
Theorem replay_grows_by_append (py : builtins) (us : list update) (s : server) :
  current_replay (ingest_all py us s) =
  (fun es => es ++ concat (map (entries_of py) us)) <$> current_replay s.
Proof.
  revert s. induction us as [|u us IH]; intros s; simpl.
  - destruct (current_replay s); simpl; [by rewrite app_nil_r | done].
  - rewrite IH, ingest_current_replay.
    destruct (current_replay s); simpl; [by rewrite app_assoc | done].
Qed.

(** *** Reset *)

(** A reset empties the store: no driver is found, the leaderboard is empty,
    and only drivers that report afterwards are in it again.  The reset
    emits an empty leaderboard at once, whatever the time since the last
    emission, and leaves the deferred task and [last_emit_ts] alone: a
    pending emit is not cancelled. *)
Theorem reset_clears_store_only (py : builtins) (t : Q) (s : server) :
  recompute_leaderboard py (driver_states (leaderboard_reset t s)) = Some [] /\
  (forall driver, get_driver driver (leaderboard_reset t s) = None) /\
  broadcasts (leaderboard_reset t s) = broadcasts s ++ [(t, [])] /\
  tasks (leaderboard_reset t s) = tasks s /\
  emit_task (leaderboard_reset t s) = emit_task s /\
  last_emit_ts (leaderboard_reset t s) = last_emit_ts s /\
  (forall us driver,
     driver ∈ dict_keys (driver_states (ingest_all py us (leaderboard_reset t s))) <->
     reported py us driver).
Proof.
  split; [reflexivity|]. split; [done|]. split.
  { unfold leaderboard_reset, broadcasts. simpl. by rewrite omap_app. }
  split; [done|]. split; [done|]. split; [done|].
  intros us driver.
  rewrite (proj2 (proj2 (ingest_all_keys py us (leaderboard_reset t s))) driver).
  simpl. split; [intros [H|H]; [by apply elem_of_nil in H | done] | by right].
Qed.

(** *** The deferred task always ends *)

(** Once due, the deferred task can always run.  When it wakes it either
    computes the leaderboard and goes on to emit it, or, when computing it
    raises, ends without a broadcast; when its emit returns the broadcast is
    delivered and the emission time recorded.  Either way the scheduler is
    idle again when the task ends, so a later notify creates a new task; a
    broadcast lost to an exception is not retried. *)
Theorem emit_task_returns_to_idle (py : builtins) (s : server) (tid : nat) (tk : task) :
  tasks s = [(tid, tk)] ->
  match tk with
  | Sleeping deadline =>
      forall t, (clock s <= t)%Q -> (deadline <= t)%Q ->
      exists s', step py (Wake tid t) s = Some s' /\
        match recompute_leaderboard py (driver_states s) with
        | Some lb => tasks s' = [(tid, Emitting lb)] /\ broadcasts s' = broadcasts s
        | None => tasks s' = [] /\ emit_task s' = None /\
                  broadcasts s' = broadcasts s /\ last_emit_ts s' = last_emit_ts s
        end
  | Emitting lb =>
      forall t, (clock s <= t)%Q ->
      exists s', step py (Delivered tid t) s = Some s' /\
        tasks s' = [] /\ emit_task s' = None /\ last_emit_ts s' = t /\
        broadcasts s' = broadcasts s ++ [(t, lb)]
  end.
Proof.
  intros Ht. destruct tk as [deadline|lb].
  - intros t Hc Hd. unfold step, handle. simpl.
    rewrite (proj2 (Qle_bool_iff _ _) Hc). simpl. rewrite Ht. simpl.
    rewrite decide_True by done. rewrite (proj2 (Qle_bool_iff _ _) Hd).
    destruct (recompute_leaderboard py (driver_states s)) as [lb|]; eexists; (split; [done|]).
    + simpl. by rewrite decide_True.
    + unfold finish_task, remove_task. simpl. rewrite Ht, filter_cons, filter_nil. simpl.
      by rewrite decide_False by (intros ?; done).
  - intros t Hc. unfold step, handle. simpl.
    rewrite (proj2 (Qle_bool_iff _ _) Hc). simpl. rewrite Ht. simpl.
    rewrite decide_True by done. eexists. split; [done|].
    unfold finish_task, remove_task, broadcasts. simpl.
    rewrite filter_cons, filter_nil, omap_app. simpl.
    by rewrite decide_False by (intros ?; done).
Qed.

(** After the first telemetry at 100 s the task is due; it wakes at
    100 s. *)
Lemma emit_task_returns_to_idle_witness :
  exists s s',
    run plain_builtins [Telemetry 100 sample_01 None] init = Some s /\
    step plain_builtins (Wake 0 100) s = Some s'.
Proof.
  destruct (run plain_builtins [Telemetry 100 sample_01 None] init) as [s|] eqn:E;
    [|vm_compute in E; discriminate E].
  assert (Hshape : (fun s => (tasks s, clock s)) <$>
                   run plain_builtins [Telemetry 100 sample_01 None] init
                   = Some ([(0, Sleeping 100)], 100%Q)) by (vm_compute; reflexivity).
  rewrite E in Hshape. simpl in Hshape. injection Hshape as Ht Hc.
  destruct (emit_task_returns_to_idle plain_builtins s 0 (Sleeping 100) Ht 100%Q) as (s' & Hs' & _).
  - rewrite Hc. apply Qle_refl.
  - apply Qle_refl.
  - by exists s, s'.
Defined.

(** *** Laps come first *)

(** [int(d.get("completed_laps", 0))] *)
Definition laps_of (py : builtins) (d : snapshot) : option Z :=
  py_int py (default (VInt 0) (d !! "completed_laps")).

Lemma StronglySorted_lookup {A} (R : relation A) l (i j : nat) a b :
  StronglySorted R l -> l !! i = Some a -> l !! j = Some b -> i < j -> R a b.
Proof.
  intros Hs. revert i j. induction Hs as [|x l Hs IH Hx]; intros i j Hi Hj Hlt; [done|].
  destruct j as [|j]; [lia|]. simpl in Hj. destruct i as [|i]; simpl in Hi.
  - injection Hi as ->. apply (proj1 (Forall_forall _ _) Hx). by eapply list_elem_of_lookup_2.
  - apply (IH i j); [done|done|lia].
Qed.

Lemma sort_key_laps py d k :
  sort_key py d = Some k -> exists l, laps_of py d = Some l /\ fst (fst (fst k)) = (- l)%Z.
Proof.
  unfold sort_key, laps_of.
  destruct (py_int py (default (VInt 0) (d !! "completed_laps"))) as [l|]; simpl; [|done].
  destruct (py_int py (default (VInt 9999) (d !! "position"))); simpl; [|done].
  destruct (py_float py (default (VFloat PInf) (d !! "total_time"))); simpl; [|done].
  destruct (py_float py (default (VFloat PInf) (d !! "best_lap"))); simpl; [|done].
  intros [= <-]. by exists l.
Qed.

(** On the leaderboard no driver stands above a driver with more completed
    laps, whatever their positions and times say. *)
Theorem leaderboard_laps_descend (py : builtins) store lb (i j : nat) di dj li lj :
  recompute_leaderboard py store = Some lb ->
  lb !! i = Some di -> lb !! j = Some dj -> i < j ->
  laps_of py di = Some li -> laps_of py dj = Some lj ->
  (lj <= li)%Z.
Proof.
  unfold recompute_leaderboard. intros Hlb Hi Hj Hlt Hli Hlj.
  destruct (sort_by_key py (dict_values store)) as [sorted|] eqn:Es; [|done].
  simpl in Hlb. injection Hlb as <-.
  assert (Hk : Forall (fun d => is_Some (sort_key py d)) (dict_values store)).
  { unfold sort_by_key in Es.
    destruct (decorate py (dict_values store)) as [decorated|] eqn:Ed; [|done].
    destruct (decorate_spec _ _ _ Ed) as [<- Hkeys].
    apply Forall_fmap. eapply Forall_impl; [exact Hkeys|]. intros e He. simpl in *. rewrite He. by eexists. }
  destruct (sort_by_key_spec py _ Hk) as (sorted' & Hs' & _ & Hsorted & _).
  rewrite Es in Hs'. injection Hs' as <-.
  rewrite annotate_lookup in Hi, Hj.
  destruct (take MAX_LEADERBOARD sorted !! i) as [d1|] eqn:E1; [|done].
  destruct (take MAX_LEADERBOARD sorted !! j) as [d2|] eqn:E2; [|done].
  simpl in Hi, Hj. injection Hi as <-. injection Hj as <-.
  apply lookup_take_Some in E1 as [E1 _]. apply lookup_take_Some in E2 as [E2 _].
  destruct (StronglySorted_lookup _ _ _ _ _ _ Hsorted E1 E2 Hlt) as (k1 & k2 & Hk1 & Hk2 & Hle).
  destruct (sort_key_laps _ _ _ Hk1) as (l1 & Hl1 & Hf1).
  destruct (sort_key_laps _ _ _ Hk2) as (l2 & Hl2 & Hf2).
  unfold laps_of in *. rewrite lookup_insert_ne in Hli, Hlj by done.
  assert (l1 = li) as -> by congruence. assert (l2 = lj) as -> by congruence.
  destruct k1 as [[[a1 a2] a3] a4], k2 as [[[b1 b2] b3] b4]. simpl in Hf1, Hf2. subst.
  unfold key_ltb in Hle. destruct (Z.eqb_spec (- lj) (- li)) as [Heq|Hne]; simpl in Hle.
  - lia.
  - apply Z.ltb_ge in Hle. lia.
Qed.

(** car_01 has driven three laps, car_03 one: car_03, seen first, is
    second. *)
Definition car_03 : snapshot := {[ "driver_id" := VStr "car_03"; "completed_laps" := VInt 1 ]}.

Lemma leaderboard_laps_descend_witness : (1 <= 3)%Z.
Proof.
  apply (leaderboard_laps_descend plain_builtins
           [("car_03", car_03); ("car_01", car_01)]
           [ <["rank" := VInt 1]> car_01; <["rank" := VInt 2]> car_03 ]
           0 1 (<["rank" := VInt 1]> car_01) (<["rank" := VInt 2]> car_03) 3 1);
    first [reflexivity | lia].
Defined.

End MainFacts.

(** ** More on sim_config_api.py *)
Module RunLedgerFacts.
Import RunId RunLedger.

Section Facts.
Context {SimConfig Entry : Type} (run_name : SimConfig -> option string).
Context (writable : string -> bool).

(** [load_config_file(run_id)]: [None] is [FileNotFoundError], which
    [get_config] turns into a 404. *)
Definition load_config_file (id : string) (d : gmap string (file (SimConfig := SimConfig) (Entry := Entry)))
  : option file :=
  d !! config_path id.

Definition get_config (id : string) (s : ledger (SimConfig := SimConfig) (Entry := Entry))
  : option file :=
  load_config_file id (disk s).

(** A request to [start_simulation], with the three clock readings of its
    call. *)
Inductive op :=
  | Start (config : SimConfig) (force : bool) (ts created_at started : string).

Definition apply_op (s : ledger (SimConfig := SimConfig) (Entry := Entry)) (o : op)
  : ledger (SimConfig := SimConfig) (Entry := Entry) :=
  match o with
  | Start config force ts created_at started =>
      snd (start_simulation run_name writable config force ts created_at started s)
  end.

(** A run is current: the id is set and not empty, and the current replay is
    the record of that run. *)
Definition active (s : ledger (SimConfig := SimConfig) (Entry := Entry)) : Prop :=
  exists id r,
    current_run_id s = Some id /\ id <> ""%string /\
    current_replay s = Some r /\ run_id r = id.

Lemma append_not_empty a b : b <> ""%string -> a +:+ b <> ""%string.
Proof. destruct a; simpl; [done | discriminate]. Qed.

Lemma mk_run_id_not_empty name ts : mk_run_id name ts <> ""%string.
Proof.
  unfold mk_run_id. destruct (given name) as [n|].
  - apply append_not_empty. discriminate.
  - discriminate.
Qed.

Lemma given_Some_not_empty id : id <> ""%string -> given (Some id) = Some id.
Proof. by destruct id. Qed.

Lemma apply_op_active s o : active s -> active (apply_op s o).
Proof.
  intros (id & r & Hid & Hne & Hr & Hrun).
  destruct o as [config force ts created_at started]; simpl.
  unfold start_simulation, save_config_file, write_file.
  destruct (writable (config_path _)); simpl; [|by exists id, r].
  rewrite Hid, (given_Some_not_empty id Hne).
  destruct force; simpl; [|by exists id, r].
  destruct (writable (replay_path _)); simpl;
    eexists _, _; (split; [done|]); (split; [apply mk_run_id_not_empty | done]).
Qed.

(** Once a start has succeeded a run stays current through every later
    start, forced or not, whether its files could be written or not.  So a
    later start without the override never begins a run and leaves the
    current run id and the current replay record as they are: when its
    configuration file can be written it is refused with the conflict, which
    names the run that is current then, and the configuration is on disk all
    the same, where [get_config] returns it under the id of the run that
    never began; when the file cannot be written, [open] raises before the
    conflict check and nothing at all has changed. *)
Theorem started_run_blocks_later_starts
    (s0 : ledger) (config : SimConfig) (force : bool) (ts created_at started : string)
    (id path : string) (ops : list op) :
  fst (start_simulation run_name writable config force ts created_at started s0)
  = Started id path ->
  let s := fold_left apply_op ops
             (snd (start_simulation run_name writable config force ts created_at started s0)) in
  active s /\
  forall config' ts' created' started',
    let id' := mk_run_id (run_name config') ts' in
    let r := start_simulation run_name writable config' false ts' created' started' s in
    current_run_id (snd r) = current_run_id s /\
    current_replay (snd r) = current_replay s /\
    if writable (config_path id')
    then (exists current, fst r = Conflict current /\ current_run_id s = Some current) /\
         get_config id' (snd r) = Some (ConfigFile (CfgDict config' created' id'))
    else fst r = WriteFailed (config_path id') /\ snd r = s.
Proof.
  intros Hstart s.
  assert (Ha : active s).
  { unfold s. clear s.
    assert (H0 : active (snd (start_simulation run_name writable config force ts created_at
                                started s0))).
    { revert Hstart. unfold start_simulation, save_config_file, write_file.
      destruct (writable (config_path _)); simpl; [|done].
      destruct (given (current_run_id s0)), force; simpl; try done;
        (destruct (writable (replay_path _)); simpl; [|done]);
        intros _; eexists _, _; (split; [done|]); (split; [apply mk_run_id_not_empty | done]). }
    revert H0.
    generalize (snd (start_simulation run_name writable config force ts created_at started s0)).
    induction ops as [|o ops IH]; intros s H0; simpl; [done|].
    apply IH. by apply apply_op_active. }
  split; [exact Ha|].
  intros config' ts' created' started'. simpl.
  destruct Ha as (cur & r & Hid & Hne & Hr & Hrun).
  unfold start_simulation, save_config_file, write_file, get_config, load_config_file.
  destruct (writable (config_path _)); simpl; [|done].
  rewrite Hid, (given_Some_not_empty cur Hne). simpl.
  split; [done|]. split; [done|]. split; [by exists cur|].
  by rewrite lookup_insert_eq.
Qed.

End Facts.

(** A [replays/] directory without subdirectories, and nothing that can be
    written outside it: a path can be written when it begins with
    [replays/] and holds no further separator. *)
Fixpoint has_separator (s : string) : bool :=
  match s with
  | EmptyString => false
  | String c rest => Ascii.eqb c "/" || has_separator rest
  end.

Definition flat_directory (path : string) : bool :=
  String.prefix "replays/" path
  && negb (has_separator (String.substring 8 (String.length path - 8) path)).

(** The quali run, then a sprint that replaces it.  The start of a race
    without the override is refused with the conflict; the start of a run
    named after a directory that is not there raises, and changes nothing. *)
Lemma started_run_blocks_later_starts_witness :
  let s := fold_left (apply_op (fun c : named => c) flat_directory)
             [Start (Some "sprint") true
                "20250101T003000Z" "2025-01-01T00:30:00Z" "2025-01-01T00:30:00Z"]
             (snd (start_simulation (fun c : named => c) flat_directory (Some "quali") false
                     "20250101T000000Z" "2025-01-01T00:00:00Z" "2025-01-01T00:00:00Z"
                     (Ledger (Entry := nat) None None ∅))) in
  (exists current,
     fst (start_simulation (fun c : named => c) flat_directory (Some "race") false
            "20250101T010000Z" "2025-01-01T01:00:00Z" "2025-01-01T01:00:00Z" s)
     = Conflict current /\
     current_run_id s = Some current) /\
  start_simulation (fun c : named => c) flat_directory (Some "2025/race") false
    "20250101T010000Z" "2025-01-01T01:00:00Z" "2025-01-01T01:00:00Z" s
  = (WriteFailed "replays/2025/race_20250101T010000Z_config.json", s).
Proof.
  intros s.
  destruct (started_run_blocks_later_starts (fun c : named => c) flat_directory
              (Ledger (Entry := nat) None None ∅) (Some "quali") false
              "20250101T000000Z" "2025-01-01T00:00:00Z" "2025-01-01T00:00:00Z"
              quali_id (replay_path quali_id)
              [Start (Some "sprint") true
                 "20250101T003000Z" "2025-01-01T00:30:00Z" "2025-01-01T00:30:00Z"]
              eq_refl) as [_ H].
  fold s in H. split.
  - destruct (H (Some "race") "20250101T010000Z" "2025-01-01T01:00:00Z" "2025-01-01T01:00:00Z")
      as (_ & _ & Hc).
    exact (proj1 Hc).
  - destruct (H (Some "2025/race") "20250101T010000Z" "2025-01-01T01:00:00Z"
                "2025-01-01T01:00:00Z") as (_ & _ & Hc).
    destruct Hc as [H1 H2].
    rewrite (surjective_pairing (start_simulation _ _ _ _ _ _ _ _)).
    rewrite H1, H2. reflexivity.
Defined.

End RunLedgerFacts.

(** ** intent_service.py: the replay of the current run *)
Module IntentService.
Import RunId Path.

Section Replay.
Context {Pkt Pred Ev : Type}.

(** Whether [open(path, "w")] succeeds, which is for the file system to say:
    a run id may be any name given to [save_replay_and_start_new]. *)
Context (writable : string -> bool).

(** [current_replay]: the record [start_new_run] creates. *)
Record replay := Replay {
  run_id : string;
  started_at : string;
  telemetry : list Pkt;
  intent_predictions : list Pred;
  events : list Ev;
}.

(** The globals [current_run_id] and [current_replay], set when the module
    is loaded, and the files under [replays/]. *)
Record service := Service {
  current_run_id : string;
  current_replay : replay;
  disk : gmap string replay;
}.

Definition replay_path (id : string) : string :=
  path_join REPLAY_DIR (id +:+ ".json").

(** How a request ends: with its answer, or with the [OSError] of
    [open(path, "w")]. *)
Inductive outcome :=
  | Done
  | Raised (path : string).

(** [with open(path, "w") as f: json.dump(record, f)]; [None] is the
    [OSError] of [open], raised before anything is written. *)
Definition write_file (path : string) (r : replay) (d : gmap string replay)
  : option (gmap string replay) :=
  if writable path then Some (<[path := r]> d) else None.

(** [start_new_run(run_name)] at the time formatted as [ts]:
    [run_name or f"run_{ts}"]. Nothing is written. *)
Definition start_new_run (run_name : option string) (ts : string) (d : gmap string replay)
  : service :=
  let id := match given run_name with Some name => name | None => "run_" +:+ ts end in
  Service id (Replay id ts [] [] []) d.

(** The replay part of [ingest_telemetry]: both appends, and the write of
    the whole record when the telemetry count is a multiple of 200.  When
    that write raises, the request fails with both appends made. *)
Definition record_sample (s : service) (sample : Pkt * Pred) : outcome * service :=
  let r := current_replay s in
  let r' := Replay (run_id r) (started_at r)
                   (telemetry r ++ [fst sample]) (intent_predictions r ++ [snd sample])
                   (events r) in
  if decide (length (telemetry r') mod 200 = 0)
  then
    let path := replay_path (current_run_id s) in
    match write_file path r' (disk s) with
    | Some d => (Done, Service (current_run_id s) r' d)
    | None => (Raised path, Service (current_run_id s) r' (disk s))
    end
  else (Done, Service (current_run_id s) r' (disk s)).

(** One request after the other, whether or not an earlier one raised. *)
Definition record_all (samples : list (Pkt * Pred)) (s : service) : service :=
  fold_left (fun s sample => snd (record_sample s sample)) samples s.


Lemma record_sample_state s sample :
  let r := current_replay s in
  let r' := Replay (run_id r) (started_at r)
                   (telemetry r ++ [fst sample]) (intent_predictions r ++ [snd sample])
                   (events r) in
  snd (record_sample s sample)
  = Service (current_run_id s) r'
      (if decide (length (telemetry r') mod 200 = 0)
       then if writable (replay_path (current_run_id s))
            then <[replay_path (current_run_id s) := r']> (disk s)
            else disk s
       else disk s).
Proof.
  intros r r'. unfold record_sample, write_file. fold r. fold r'.
  destruct (decide _); [|done]. by destruct (writable _).
Qed.

Lemma record_all_snoc samples sample s :
  record_all (samples ++ [sample]) s = snd (record_sample (record_all samples s) sample).
Proof. unfold record_all. by rewrite fold_left_app. Qed.

Lemma record_all_frame samples s :
  current_run_id (record_all samples s) = current_run_id s /\
  telemetry (current_replay (record_all samples s))
    = telemetry (current_replay s) ++ map fst samples /\
  intent_predictions (current_replay (record_all samples s))
    = intent_predictions (current_replay s) ++ map snd samples /\
  run_id (current_replay (record_all samples s)) = run_id (current_replay s) /\
  started_at (current_replay (record_all samples s)) = started_at (current_replay s) /\
  events (current_replay (record_all samples s)) = events (current_replay s) /\
  forall p, p <> replay_path (current_run_id s) -> disk (record_all samples s) !! p = disk s !! p.
Proof.
  induction samples as [|sample samples IH] using rev_ind.
  - simpl. rewrite !app_nil_r. done.
  - rewrite record_all_snoc, record_sample_state.
    destruct IH as (H1 & H2 & H3 & H4 & H5 & H6 & H7).
    cbn -[Nat.div Nat.modulo Nat.mul]. rewrite H1, H2, H3, !map_app, !app_assoc.
    repeat (split; [done|]). intros p Hp.
    case_decide; [|by apply H7]. destruct (writable _); [|by apply H7].
    rewrite lookup_insert_ne by done. by apply H7.
Qed.

(** The periodic flush. After [n] samples recorded into a new run, memory
    holds all of them in order, telemetry and predictions in step.  Where
    the file of the run can be written it holds the first [200 * (n / 200)]
    samples, so fewer than 200 are ever unwritten, and before the 200th
    sample nothing of the run is on disk at all, since starting a run writes
    no file.  Where it cannot be written (the run id is a name given to
    [save_replay_and_start_new], taken as it is) nothing of the run is ever
    on disk, and it is every 200th request that raises, after its sample
    has been appended.  No other file is touched. *)
Theorem flush_every_200 (name : option string) (ts : string) (d : gmap string replay)
    (samples : list (Pkt * Pred)) :
  let s0 := start_new_run name ts d in
  let s := record_all samples s0 in
  let id := current_run_id s0 in
  let n := length samples in
  telemetry (current_replay s) = map fst samples /\
  intent_predictions (current_replay s) = map snd samples /\
  disk s !! replay_path id =
    (if decide (n < 200) then d !! replay_path id
     else if writable (replay_path id)
          then Some (Replay id ts (take (200 * (n / 200)) (map fst samples))
                                  (take (200 * (n / 200)) (map snd samples)) [])
          else d !! replay_path id) /\
  (forall p, p <> replay_path id -> disk s !! p = d !! p) /\
  (forall sample,
     fst (record_sample s sample) =
       if decide ((n + 1) mod 200 = 0)
       then if writable (replay_path id) then Done else Raised (replay_path id)
       else Done).
Proof.
  intros s0 s id n.
  destruct (record_all_frame samples s0) as (H1 & H2 & H3 & H4 & H5 & H6 & H7).
  split; [exact H2|]. split; [exact H3|]. split; [|split; [exact H7|]].
  - unfold s, n. clear. induction samples as [|sample samples IH] using rev_ind; [done|].
    rewrite record_all_snoc, record_sample_state.
    destruct (record_all_frame samples s0) as (H1 & H2 & H3 & H4 & H5 & H6 & _).
    cbn -[Nat.div Nat.modulo Nat.mul take].
    rewrite H1, H2, H3, H4, H5, H6. cbn -[Nat.div Nat.modulo Nat.mul take].
    rewrite !length_app, !length_map. cbn -[Nat.div Nat.modulo Nat.mul take].
    rewrite !map_app. cbn -[Nat.div Nat.modulo Nat.mul take].
    set (m := length samples) in *.
    pose proof (Nat.div_mod_eq (m + 1) 200) as Hq1.
    pose proof (Nat.div_mod_eq m 200) as Hq.
    pose proof (Nat.mod_upper_bound (m + 1) 200) as Hr1.
    pose proof (Nat.mod_upper_bound m 200) as Hr.
    unfold id in *. cbn -[Nat.div Nat.modulo Nat.mul take record_all] in IH.
    destruct (decide ((m + 1) mod 200 = 0)) as [Hz|Hnz].
    + rewrite (decide_False (P := m + 1 < 200)) by lia.
      destruct (writable _) eqn:Hw.
      * rewrite lookup_insert_eq.
        assert (Hall : 200 * ((m + 1) / 200) = m + 1) by lia.
        rewrite Hall. f_equal. f_equal.
        -- rewrite take_ge; [done|]. rewrite length_app, length_map. simpl. lia.
        -- rewrite take_ge; [done|]. rewrite length_app, length_map. simpl. lia.
      * rewrite IH. by destruct (decide (m < 200)).
    + rewrite IH. assert (Hdiv : (m + 1) / 200 = m / 200) by lia.
      rewrite Hdiv. destruct (decide (m < 200)).
      * rewrite decide_True by lia. done.
      * rewrite decide_False by lia. destruct (writable _); [|done]. f_equal. f_equal.
        -- rewrite take_app_le; [done|]. rewrite length_map. fold m. lia.
        -- rewrite take_app_le; [done|]. rewrite length_map. fold m. lia.
  - intros sample. fold s in H1, H2. unfold record_sample, write_file.
    cbn -[Nat.div Nat.modulo Nat.mul]. rewrite H1, H2.
    cbn -[Nat.div Nat.modulo Nat.mul]. rewrite length_app, length_map.
    cbn -[Nat.div Nat.modulo Nat.mul]. fold n. fold id.
    destruct (decide _); [|done]. by destruct (writable _).
Qed.



End Replay.


End IntentService.

(** ** More on [main._mk_run_id] *)
Module RunIdFacts.
Import RunId.

Lemma string_map_safe_id isalnum s :
  string_Forall (safe isalnum) s -> string_map (safe_char isalnum) s = s.
Proof.
  induction s as [|c s IH]; simpl; [done|]. intros [Hc Hs]. rewrite IH by done. f_equal.
  unfold safe_char. destruct Hc as [->|[->| ->]]; [done| |].
  - by rewrite bool_decide_eq_true_2, orb_true_r by done.
  - destruct (isalnum "_"%char), (bool_decide ("_"%char = "-"%char)); done.
Qed.

Lemma string_take_all n s : String.length s <= n -> string_take n s = s.
Proof.
  revert n. induction s as [|c s IH]; intros [|n]; simpl; intros H; try done; [lia|].
  rewrite IH; [done | lia].
Qed.

(** A name that is already safe and at most 40 characters long is kept as
    it is: the run id is the name, an underscore and the timestamp. *)
Theorem safe_name_kept (isalnum : ascii -> bool) (name ts : string) :
  name <> ""%string -> String.length name <= 40 -> string_Forall (safe isalnum) name ->
  _mk_run_id isalnum (Some name) ts = name +:+ "_" +:+ ts.
Proof.
  intros Hne Hlen Hsafe. unfold _mk_run_id.
  destruct name as [|c name]; [done|]. unfold given.
  by rewrite string_map_safe_id, string_take_all by done.
Qed.

(** The letters and digits of ASCII, on which [str.isalnum] holds. *)
Definition ascii_alnum (c : ascii) : bool :=
  let n := nat_of_ascii c in
  Nat.leb 48 n && Nat.leb n 57 || Nat.leb 65 n && Nat.leb n 90 || Nat.leb 97 n && Nat.leb n 122.

Lemma safe_name_kept_witness :
  _mk_run_id ascii_alnum (Some "quali-2_wet") "20250101T000000Z"
  = "quali-2_wet_20250101T000000Z".
Proof.
  apply (safe_name_kept ascii_alnum "quali-2_wet" "20250101T000000Z").
  - discriminate.
  - simpl. lia.
  - simpl. repeat split; first [by left | by right; left | by right; right].
Defined.

End RunIdFacts.
